(** * create_new_member_ext.py: external-table DDL from a FirstLogic format file

    A shallow embedding of [src/create_new_member_ext.py] and the properties of
    its parser ([collect_columns]), its reconciliation gate, its renderer
    ([gen_ddl]) and its top-level flow.

    Modelling conventions.
    - Text is [string]; the model is of ASCII text, which is what format
      files and Oracle column names use: [PyStr.upper] and [PyStr.lower] are
      [str.upper] and [str.lower] on text that satisfies [PyStr.is_ascii],
      and [PyStr.int] is [int] on such text.
    - Python [int] is unbounded: lengths and offsets are [Z].
    - A Python [set] of names is a [gset string].
    - Exceptions, [sys.exit] and the output of the run are explicit: a
      computation returns a value, raises an [Exception], or raises
      [SystemExit], and appends to a trace of observable events. *)

From Stdlib Require Import ZArith Ascii String DecimalString DecimalPos List Permutation.
From stdpp Require Import gmap strings list sets.

Local Open Scope string_scope.
Local Open Scope Z_scope.

(** ** Python string primitives *)

Module PyStr.

Definition is_lower (c : ascii) : bool :=
  let n := nat_of_ascii c in (Nat.leb 97 n && Nat.leb n 122)%bool.

Definition is_upper (c : ascii) : bool :=
  let n := nat_of_ascii c in (Nat.leb 65 n && Nat.leb n 90)%bool.

Definition upper_char (c : ascii) : ascii :=
  if is_lower c then ascii_of_nat (nat_of_ascii c - 32) else c.

Definition lower_char (c : ascii) : ascii :=
  if is_upper c then ascii_of_nat (nat_of_ascii c + 32) else c.

(** Text within the ASCII range, on which [upper] and [lower] below are
    [str.upper] and [str.lower]. *)
Fixpoint is_ascii (s : string) : bool :=
  match s with
  | EmptyString => true
  | String c s' => (Nat.ltb (nat_of_ascii c) 128 && is_ascii s')%bool
  end.

(** [s.upper()] *)
Fixpoint upper (s : string) : string :=
  match s with
  | EmptyString => EmptyString
  | String c s' => String (upper_char c) (upper s')
  end.

(** [s.lower()] *)
Fixpoint lower (s : string) : string :=
  match s with
  | EmptyString => EmptyString
  | String c s' => String (lower_char c) (lower s')
  end.

(** [s.split(sep)] for a one-character separator: never empty, and one
    more field than there are separators. *)
Fixpoint split (sep : ascii) (s : string) : list string :=
  match s with
  | EmptyString => [EmptyString]
  | String c s' =>
      if Ascii.eqb c sep then EmptyString :: split sep s'
      else match split sep s' with
           | [] => [String c EmptyString]
           | f :: fs => String c f :: fs
           end
  end.

(** [sep.join(items)] *)
Fixpoint join (sep : string) (items : list string) : string :=
  match items with
  | [] => EmptyString
  | [x] => x
  | x :: rest => x ++ sep ++ join sep rest
  end.

(** Characters that [int] skips around a literal: space, \t, \n, \v, \f
    and \r.  The separators \x1c..\x1f are not skipped: [int] raises
    [ValueError] on them. *)
Definition is_space (c : ascii) : bool :=
  let n := nat_of_ascii c in
  (Nat.eqb n 32 || (Nat.leb 9 n && Nat.leb n 13))%bool.

Definition is_digit (c : ascii) : bool :=
  let n := nat_of_ascii c in (Nat.leb 48 n && Nat.leb n 57)%bool.

Definition digit_val (c : ascii) : Z := Z.of_nat (nat_of_ascii c - 48).

Fixpoint lstrip (s : string) : string :=
  match s with
  | String c s' => if is_space c then lstrip s' else s
  | EmptyString => EmptyString
  end.

Fixpoint all_space (s : string) : bool :=
  match s with
  | EmptyString => true
  | String c s' => (is_space c && all_space s')%bool
  end.

(** The digits of a decimal literal after the first one: a digit, or one
    underscore followed by a digit; then optional trailing white space. *)
Fixpoint digits_tail (acc : Z) (s : string) : option Z :=
  match s with
  | EmptyString => Some acc
  | String c s' =>
      if is_digit c then digits_tail (10 * acc + digit_val c) s'
      else if Ascii.eqb c "_" then
        match s' with
        | String d s'' =>
            if is_digit d then digits_tail (10 * acc + digit_val d) s''
            else None
        | EmptyString => None
        end
      else if all_space s then Some acc
      else None
  end.

Definition digits (s : string) : option Z :=
  match s with
  | String c s' => if is_digit c then digits_tail (digit_val c) s' else None
  | EmptyString => None
  end.

(** [int(s)] in base 10; [None] stands for [ValueError].  White space around
    the literal is skipped, one sign is allowed, and digits may be grouped
    by single underscores.  The interpreter's configurable cap on the number
    of digits is left out. *)
Definition int (s : string) : option Z :=
  match lstrip s with
  | String "-" s' => Z.opp <$> digits s'
  | String "+" s' => digits s'
  | s' => digits s'
  end.

(** [str(n)], as an f-string renders an [int]. *)
Definition str (n : Z) : string := NilZero.string_of_int (Z.to_int n).

Definition tab : string := String "009" EmptyString.
Definition nl : string := String "010" EmptyString.
Definition dquote : string := String "034" EmptyString.

End PyStr.

(** ** Exceptions, exits and the trace of a run *)

(** The [Exception] subclasses the run can meet. *)
Inductive exn : Type :=
| IndexError                       (* parts[1] on a line without a comma *)
| ValueError (literal : string)    (* int(parts[1]) on a non-integer *)
| OSError (path : string)          (* open(fmt_path) fails *)
| ConfigError (what : string)      (* raised by configparser: cfg.read or cfg.get *)
| DatabaseError (what : string).   (* raised by cx_Oracle *)

(** What is logged: a text, or an exception object rendered by [logging]. *)
Inductive message : Type :=
| Text (s : string)
| OfExn (e : exn).

(** Observable actions, in the order they happen. *)
Inductive event : Type :=
| LogError (m : message)                     (* logging.error(m) *)
| Print (s : string)                         (* print(s) *)
| PrintDiscrepancies (names : gset string)   (* print('Column discrepancies found for', ...);
                                                the set itself: its iteration order is unspecified *)
| Connect (username password dbname : string)
| QueryCharSemantics                         (* the char_used = 'C' query *)
| QueryAllColumns                            (* the NOT LIKE '%_VOTING_KEY' query *)
| OpenFile (path : string)
| CallProc (table_name ddl : string).        (* cur.callproc(create_or_replace_external_table) *)

(** How a computation ends.  [SystemExit code] is what [sys.exit(code)] and
    [exit(code)] raise; it is a [BaseException], not an [Exception]. *)
Inductive result (A : Type) : Type :=
| Return (a : A)
| Raise (e : exn)
| SystemExit (code : option Z).
Arguments Return {A} a.
Arguments Raise {A} e.
Arguments SystemExit {A} code.

Definition M (A : Type) : Type := list event -> result A * list event.

Definition ret {A} (a : A) : M A := fun tr => (Return a, tr).

Definition bind {A B} (m : M A) (k : A -> M B) : M B :=
  fun tr =>
    match m tr with
    | (Return a, tr') => k a tr'
    | (Raise e, tr') => (Raise e, tr')
    | (SystemExit c, tr') => (SystemExit c, tr')
    end.

Definition emit (ev : event) : M unit := fun tr => (Return tt, (tr ++ [ev])%list).
Definition raise {A} (e : exn) : M A := fun tr => (Raise e, tr).

(** [sys.exit()] and the builtin [exit()]: no argument, so the code is [None]. *)
Definition sys_exit {A} : M A := fun tr => (SystemExit None, tr).

(** [try: body  except Exception as exc: handler(exc)]: [SystemExit] passes
    through. *)
Definition try_except {A} (body : M A) (handler : exn -> M A) : M A :=
  fun tr =>
    match body tr with
    | (Raise e, tr') => handler e tr'
    | r => r
    end.

Declare Scope run_scope.
Delimit Scope run_scope with run.
Notation "x <- m ;; k" := (bind m (fun x => k))
  (at level 100, m at next level, right associativity) : run_scope.
Notation "m ;;; k" := (bind m (fun _ => k))
  (at level 100, right associativity) : run_scope.

(** The status the interpreter hands to the invoking context: 0 after a
    normal end, the [SystemExit] code with [None] read as 0, and 1 after an
    uncaught exception. *)
Definition exit_status {A} (r : result A) : Z :=
  match r with
  | Return _ => 0
  | SystemExit None => 0
  | SystemExit (Some c) => c
  | Raise _ => 1
  end.

(** ** The world the script runs in *)

Record world : Type := {
  (* os.path.isfile *)
  isfile : string -> bool;
  (* cfg.read(path) then the [database] section: for each option it has,
     what cfg.get returns or the exception it raises (an interpolation
     error); [None] when the section is absent; [inl] when cfg.read raises *)
  config_file : string -> exn + option (gmap string (exn + string));
  (* the lines [for line in ifh] yields, [None] when open() fails *)
  read_lines : string -> option (list string);
  (* cx_Oracle.Connection succeeds *)
  connect_ok : string -> string -> string -> bool;
  (* the two result sets over COPE.NEW_MEMBER, [None] when the query fails *)
  char_semantics_columns : option (gset string);
  all_db_columns : option (gset string);
  (* the stored procedure succeeds *)
  callproc_ok : string -> string -> bool
}.

(** ** The script *)

(** [log_and_quit(message)] *)
Definition log_and_quit {A} (m : message) : M A :=
  (emit (LogError m) ;;; sys_exit)%run.

(** [get_cursor(username, password, dbname)] *)
Definition get_cursor (w : world) (username password dbname : string) : M unit :=
  (emit (Connect username password dbname) ;;;
   if connect_ok w username password dbname then ret tt
   else raise (DatabaseError "connect"))%run.

(** [get_char_semantics_columns(cur)] *)
Definition get_char_semantics_columns (w : world) : M (gset string) :=
  (emit QueryCharSemantics ;;;
   match char_semantics_columns w with
   | Some s => ret s
   | None => raise (DatabaseError "execute")
   end)%run.

(** [get_all_columns(cur)] *)
Definition get_all_columns (w : world) : M (gset string) :=
  (emit QueryAllColumns ;;;
   match all_db_columns w with
   | Some s => ret s
   | None => raise (DatabaseError "execute")
   end)%run.

(** *** collect_columns *)

(** The locals of [collect_columns] that the loop updates. *)
Record locals : Type := {
  all_columns : gset string;
  offset : Z;
  with_lengths : list string;
  with_offsets : list string
}.

Definition init_locals : locals :=
  {| all_columns := ∅; offset := 0; with_lengths := []; with_offsets := [] |}.

(** [parts = line.split(','); name, length = parts[0].upper(), int(parts[1])] *)
Definition parse_line (line : string) : exn + (string * Z) :=
  match PyStr.split "," line with
  | [] => inl IndexError
  | p0 :: rest =>
      let name := PyStr.upper p0 in
      match rest with
      | [] => inl IndexError
      | p1 :: _ =>
          match PyStr.int p1 with
          | None => inl (ValueError p1)
          | Some length => inr (name, length)
          end
      end
  end.

Definition char_used (char_columns : gset string) (name : string) : string :=
  if decide (name ∈ char_columns) then "CHAR" else "BYTE".

(** f'{name} VARCHAR2({length} {char_used})' *)
Definition fmt_length (name : string) (length : Z) (unit : string) : string :=
  name ++ " VARCHAR2(" ++ PyStr.str length ++ " " ++ unit ++ ")".

(** f'"{name}"\tPOSITION({first}:{last})' *)
Definition fmt_offset (name : string) (first last : Z) : string :=
  PyStr.dquote ++ name ++ PyStr.dquote ++ PyStr.tab
    ++ "POSITION(" ++ PyStr.str first ++ ":" ++ PyStr.str last ++ ")".

(** One pass through the body of the [for] loop. *)
Inductive flow : Type :=
| Next (st : locals)     (* fall through to the next line *)
| Break                  (* the EOR line *)
| Fail (e : exn).

Definition loop_body (char_columns : gset string) (st : locals) (line : string) : flow :=
  match parse_line line with
  | inl e => Fail e
  | inr (name, length) =>
      if String.eqb name "EOR" then Break
      else
        let first := offset st + 1 in
        let last := offset st + length in
        Next {| all_columns := all_columns st ∪ {[PyStr.upper name]};
                offset := offset st + length;
                with_lengths :=
                  (with_lengths st
                     ++ [fmt_length name length (char_used char_columns name)])%list;
                with_offsets :=
                  (with_offsets st ++ [fmt_offset name first last])%list |}
  end.

(** [for line in ifh: ...] *)
Fixpoint for_lines (char_columns : gset string) (st : locals) (lines : list string)
  : exn + locals :=
  match lines with
  | [] => inr st
  | line :: rest =>
      match loop_body char_columns st line with
      | Fail e => inl e
      | Break => inr st
      | Next st' => for_lines char_columns st' rest
      end
  end.

(** [db_columns ^ all_columns] *)
Definition symmetric_difference (a b : gset string) : gset string :=
  (a ∖ b) ∪ (b ∖ a).

(** The [retval] dictionary. *)
Record fragments : Type := {
  columns_with_lengths : string;
  columns_with_offsets : string
}.

Definition open_lines (w : world) (fmt_path : string) : M (list string) :=
  (emit (OpenFile fmt_path) ;;;
   match read_lines w fmt_path with
   | Some lines => ret lines
   | None => raise (OSError fmt_path)
   end)%run.

Definition lift_sum {A} (r : exn + A) : M A :=
  match r with
  | inl e => raise e
  | inr a => ret a
  end.

Definition collect_columns (w : world) (fmt_path : string)
    (char_columns db_columns : gset string) : M fragments :=
  (st <- try_except
           (lines <- open_lines w fmt_path ;;
            st <- lift_sum (for_lines char_columns init_locals lines) ;;
            let discrepancies := symmetric_difference db_columns (all_columns st) in
            if decide (discrepancies = ∅) then ret st
            else (emit (PrintDiscrepancies discrepancies) ;;; sys_exit))
           (fun exc => log_and_quit (OfExn exc)) ;;
   ret {| columns_with_lengths :=
            PyStr.join ("," ++ PyStr.nl ++ "    ") (with_lengths st);
          columns_with_offsets :=
            PyStr.join ("," ++ PyStr.nl ++ "       ") (with_offsets st) |})%run.

(** *** gen_ddl *)

(** The command line, as argparse delivers it. *)
Record cli : Type := {
  dbconfig_path : string;
  fmt_path : string;
  affiliate_acronym : string;
  show_only : bool
}.

(** [args_dict] once [expand_args] has filled it in. *)
Record args : Type := {
  given : cli;
  table_name : string;
  username : string;
  password : string;
  dbname : string;
  directory_name : string
}.

(** The [values] dictionary handed to the template. *)
Record values : Type := {
  v_columns_with_lengths : string;
  v_columns_with_offsets : string;
  v_table_name : string;
  v_lc_table_name : string;
  v_directory_name : string;
  v_file_name : string
}.

(** [_TEMPLATE % values] *)
Definition template (v : values) : string :=
  "CREATE TABLE " ++ v_table_name v ++ PyStr.nl ++
  "  (" ++ v_columns_with_lengths v ++ PyStr.nl ++
  "  )" ++ PyStr.nl ++
  "  ORGANIZATION EXTERNAL" ++ PyStr.nl ++
  "   (TYPE ORACLE_LOADER" ++ PyStr.nl ++
  "    DEFAULT DIRECTORY " ++ v_directory_name v ++ PyStr.nl ++
  "    ACCESS PARAMETERS" ++ PyStr.nl ++
  "    ( records delimited by newline" ++ PyStr.nl ++
  "      badfile " ++ v_directory_name v ++ ":'" ++ v_lc_table_name v ++ ".bad'" ++ PyStr.nl ++
  "      logfile " ++ v_directory_name v ++ ":'" ++ v_lc_table_name v ++ ".log'" ++ PyStr.nl ++
  "      fields" ++ PyStr.nl ++
  "      (" ++ v_columns_with_offsets v ++ ")" ++ PyStr.nl ++
  "    )" ++ PyStr.nl ++
  "    LOCATION" ++ PyStr.nl ++
  "    ( '" ++ v_file_name v ++ "'" ++ PyStr.nl ++
  "    )" ++ PyStr.nl ++
  "  )" ++ PyStr.nl ++
  "  REJECT LIMIT UNLIMITED" ++ PyStr.nl.

Definition gen_ddl (w : world) (all_args : args) : M string :=
  (char_columns <- get_char_semantics_columns w ;;
   db_columns <- get_all_columns w ;;
   let acronym_upper := PyStr.upper (affiliate_acronym (given all_args)) in
   let acronym_lower := PyStr.lower (affiliate_acronym (given all_args)) in
   retval <- collect_columns w (fmt_path (given all_args)) char_columns db_columns ;;
   ret (template
          {| v_columns_with_lengths := columns_with_lengths retval;
             v_columns_with_offsets := columns_with_offsets retval;
             v_table_name := table_name all_args;
             v_lc_table_name := PyStr.lower (table_name all_args);
             v_directory_name := directory_name all_args;
             v_file_name := acronym_lower ++ "_good.txt" |}))%run.

(** *** create_table, expand_args and the top level *)

Definition create_table (w : world) (table_name ddl : string) : M unit :=
  (emit (CallProc table_name ddl) ;;;
   if callproc_ok w table_name ddl then ret tt
   else raise (DatabaseError "callproc"))%run.

(** [cfg.get('database', item)] guarded by [cfg.has_option]: the option can
    be there and [cfg.get] still raise. *)
Definition config_item (section : gmap string (exn + string)) (item : string)
  : M string :=
  match section !! item with
  | Some (inr v) => ret v
  | Some (inl e) => raise e
  | None => log_and_quit (Text ("Missing parameter " ++ item ++ " "))
  end.

Definition expand_args (w : world) (args_dict : cli) : M args :=
  let table_name := "NEW_MEMBER_" ++ affiliate_acronym args_dict ++ "_EXT" in
  let dbconfig_path := dbconfig_path args_dict in
  ((if isfile w dbconfig_path then ret tt
    else log_and_quit (Text ("No such file: " ++ dbconfig_path))) ;;;
   cfg <- lift_sum (config_file w dbconfig_path) ;;
   match cfg with
   | None => log_and_quit (Text "No database found")
   | Some section =>
       username <- config_item section "username" ;;
       password <- config_item section "password" ;;
       dbname <- config_item section "dbname" ;;
       directory_name <- config_item section "directory_name" ;;
       ret {| given := args_dict; table_name := table_name;
              username := username; password := password;
              dbname := dbname; directory_name := directory_name |}
   end)%run.

(** The module body after argument parsing. *)
Definition main (w : world) (argv : cli) : M unit :=
  (args <- expand_args w argv ;;
   get_cursor w (username args) (password args) (dbname args) ;;;
   ddl <- gen_ddl w args ;;
   if show_only argv then emit (Print ddl)
   else create_table w (table_name args) ddl)%run.

(** A whole run, from an empty trace. *)
Definition run (w : world) (argv : cli) : result unit * list event :=
  main w argv [].

(** ** A structured reading of the loop

    The loop of [collect_columns] only keeps rendered text.  [scan] follows
    the same loop and keeps, for every line it accepts, the values the text
    is rendered from; [for_lines_scan] shows the two agree. *)

Record column : Type := {
  col_name : string;
  col_length : Z;
  col_first : Z;
  col_last : Z
}.

Fixpoint scan (offset : Z) (lines : list string) : exn + list column :=
  match lines with
  | [] => inr []
  | line :: rest =>
      match parse_line line with
      | inl e => inl e
      | inr (name, length) =>
          if String.eqb name "EOR" then inr []
          else
            match scan (offset + length) rest with
            | inl e => inl e
            | inr cols =>
                inr ({| col_name := name; col_length := length;
                        col_first := offset + 1; col_last := offset + length |} :: cols)
            end
      end
  end.

Definition render_length (char_columns : gset string) (c : column) : string :=
  fmt_length (col_name c) (col_length c) (char_used char_columns (col_name c)).

Definition render_offset (c : column) : string :=
  fmt_offset (col_name c) (col_first c) (col_last c).

Definition total_length (cols : list column) : Z :=
  foldr (fun c acc => col_length c + acc) 0 cols.

(** The locals after the loop has accepted [cols] on top of [st]. *)
Definition extend (char_columns : gset string) (st : locals) (cols : list column) : locals :=
  {| all_columns := all_columns st ∪ list_to_set (col_name <$> cols);
     offset := offset st + total_length cols;
     with_lengths := (with_lengths st ++ (render_length char_columns <$> cols))%list;
     with_offsets := (with_offsets st ++ (render_offset <$> cols))%list |}.

(** The upper-cased first field of a line, as line 106 computes [name]. *)
Definition line_name (line : string) : string :=
  PyStr.upper (hd EmptyString (PyStr.split "," line)).

(** A descriptor the parser accepts with positive lengths: every line up to
    the sentinel (or to the end of the file) has an integer second field,
    and it is positive on the column lines. *)
Fixpoint valid_descriptor (lines : list string) : bool :=
  match lines with
  | [] => true
  | line :: rest =>
      match parse_line line with
      | inl _ => false
      | inr (name, length) =>
          if String.eqb name "EOR" then true
          else (0 <? length) && valid_descriptor rest
      end
  end.

(** ** Vocabulary of the statements *)

(** The [retval] dictionary built from the locals after the loop. *)
Definition fragments_of (st : locals) : fragments :=
  {| columns_with_lengths :=
       PyStr.join ("," ++ PyStr.nl ++ "    ") (with_lengths st);
     columns_with_offsets :=
       PyStr.join ("," ++ PyStr.nl ++ "       ") (with_offsets st) |}.

(** The DDL text [gen_ddl] returns when the loop ends with locals [st]. *)
Definition ddl_of (all_args : args) (st : locals) : string :=
  template
    {| v_columns_with_lengths := columns_with_lengths (fragments_of st);
       v_columns_with_offsets := columns_with_offsets (fragments_of st);
       v_table_name := table_name all_args;
       v_lc_table_name := PyStr.lower (table_name all_args);
       v_directory_name := directory_name all_args;
       v_file_name := PyStr.lower (affiliate_acronym (given all_args)) ++ "_good.txt" |}.

(** The stored procedure is never called; the DDL is never printed. *)
Definition never_applies (tr : list event) : Prop :=
  forall t d, CallProc t d ∉ tr.

Definition never_prints_ddl (tr : list event) : Prop :=
  forall s, Print s ∉ tr.

(** The name set the loop builds, on its own: [None] when a line raises. *)
Fixpoint parsed_names (lines : list string) : option (gset string) :=
  match lines with
  | [] => Some ∅
  | line :: rest =>
      match parse_line line with
      | inl _ => None
      | inr (name, _) =>
          if String.eqb name "EOR" then Some ∅
          else union {[name]} <$> parsed_names rest
      end
  end.

(** The run prints a discrepancy report. *)
Definition reports_discrepancy (w : world) (path : string) (char db : gset string) : Prop :=
  exists names, PrintDiscrepancies names ∈ (collect_columns w path char db []).2.

(** The run ends with result [r] after the events [tr], and the invoking
    context sees the termination status [status]. *)
Definition ends_with (w : world) (argv : cli) (r : result unit) (tr : list event)
    (status : Z) : Prop :=
  run w argv = (r, tr) /\ exit_status (run w argv).1 = status.

(** A field without a comma, so that [split] leaves it whole. *)
Fixpoint comma_free (s : string) : bool :=
  match s with
  | EmptyString => true
  | String c s' => negb (Ascii.eqb c ",") && comma_free s'
  end.

(** The items [expand_args] looks up, in the order of its [for] loop. *)
Definition config_items : list string :=
  ["username"; "password"; "dbname"; "directory_name"].

(** How the [for] loop of [expand_args] over [items] ends: it gets every
    item, or stops at an item the section lacks, or at a [cfg.get] that
    raises. *)
Inductive items_outcome : Type :=
| AllPresent
| Missing (item : string)
| GetRaises (e : exn).

Fixpoint get_items (section : gmap string (exn + string)) (items : list string)
  : items_outcome :=
  match items with
  | [] => AllPresent
  | item :: rest =>
      match section !! item with
      | None => Missing item
      | Some (inl e) => GetRaises e
      | Some (inr _) => get_items section rest
      end
  end.

(** The values [cfg.get] returns for the options of a section. *)
Definition section_values (section : gmap string (exn + string)) : gmap string string :=
  omap (fun r => match r with inr v => Some v | inl _ => None end) section.

(** What [expand_args] meets in configparser: [inl e] when configparser
    raises [e], in [cfg.read] or in a [cfg.get] that the loop reaches;
    otherwise the values of the [database] section ([None]: no such
    section). *)
Definition read_config (w : world) (path : string) : exn + option (gmap string string) :=
  match config_file w path with
  | inl e => inl e
  | inr None => inr None
  | inr (Some section) =>
      match get_items section config_items with
      | GetRaises e => inl e
      | _ => inr (Some (section_values section))
      end
  end.

(** The run contacted the database or opened the descriptor. *)
Definition touches_collaborators (ev : event) : bool :=
  match ev with
  | Connect _ _ _ | QueryCharSemantics | QueryAllColumns
  | OpenFile _ | CallProc _ _ => true
  | LogError _ | Print _ | PrintDiscrepancies _ => false
  end.

(** ** Sample inputs *)

(** A world in which the configuration is complete, the database answers,
    and the descriptor holds [lines] ([None]: no such file). *)
Definition sample_world (lines : option (list string))
    (char_columns db_columns : gset string) : world :=
  {| isfile := fun _ => true;
     config_file := fun _ =>
       inr (Some (<["username" := inr "cope"]>
                   (<["password" := inr "secret"]>
                     (<["dbname" := inr "orcl"]>
                       (<["directory_name" := inr "EXT_DIR"]> ∅)))));
     read_lines := fun _ => lines;
     connect_ok := fun _ _ _ => true;
     char_semantics_columns := Some char_columns;
     all_db_columns := Some db_columns;
     callproc_ok := fun _ _ => true |}.

(** A world without the configuration file. *)
Definition no_config_world : world :=
  {| isfile := fun _ => false;
     config_file := fun _ => inr None;
     read_lines := fun _ => None;
     connect_ok := fun _ _ _ => true;
     char_semantics_columns := Some ∅;
     all_db_columns := Some ∅;
     callproc_ok := fun _ _ => true |}.

Definition sample_cli (acronym : string) (show : bool) : cli :=
  {| dbconfig_path := "db.cfg"; fmt_path := "member.fmt";
     affiliate_acronym := acronym; show_only := show |}.

(** What [expand_args] makes of [sample_cli] in a [sample_world]. *)
Definition sample_args (acronym : string) (show : bool) : args :=
  {| given := sample_cli acronym show;
     table_name := "NEW_MEMBER_" ++ acronym ++ "_EXT";
     username := "cope"; password := "secret"; dbname := "orcl";
     directory_name := "EXT_DIR" |}.

Definition spec_example : list string :=
  ["NAME,10" ++ PyStr.nl; "ADDR,20" ++ PyStr.nl; "EOR,0" ++ PyStr.nl].

Definition city_example : list string :=
  ["city,15" ++ PyStr.nl; "STATE,2" ++ PyStr.nl; "EOR,0" ++ PyStr.nl].

Definition sentinel_last : list string := ["NAME,10"; "ADDR,20"; "EOR,0"].

Definition columns_swapped : list string := ["ADDR,20"; "NAME,10"; "EOR,0"].

Definition sentinel_first : list string := ["EOR,0"; "NAME,10"; "ADDR,20"].

Definition name_addr : gset string := {["NAME"]} ∪ {["ADDR"]}.

Definition name_addr_phone : gset string := {["NAME"]} ∪ {["ADDR"]} ∪ {["PHONE"]}.

Definition spec_example_locals : locals :=
  {| all_columns := name_addr;
     offset := 30;
     with_lengths := ["NAME VARCHAR2(10 BYTE)"; "ADDR VARCHAR2(20 BYTE)"];
     with_offsets :=
       [PyStr.dquote ++ "NAME" ++ PyStr.dquote ++ PyStr.tab ++ "POSITION(1:10)";
        PyStr.dquote ++ "ADDR" ++ PyStr.dquote ++ PyStr.tab ++ "POSITION(11:30)"] |}.



(** A world whose [database] section has a user name and a directory only. *)
Definition partial_config_world : world :=
  {| isfile := fun _ => true;
     config_file := fun _ =>
       inr (Some (<["username" := inr "cope"]>
                   (<["directory_name" := inr "EXT_DIR"]> ∅)));
     read_lines := fun _ => Some spec_example;
     connect_ok := fun _ _ _ => true;
     char_semantics_columns := Some ∅;
     all_db_columns := Some name_addr;
     callproc_ok := fun _ _ => true |}.

(** A world whose password makes [cfg.get] raise, and which has no dbname. *)
Definition interpolation_error_world : world :=
  {| isfile := fun _ => true;
     config_file := fun _ =>
       inr (Some (<["username" := inr "cope"]>
                   (<["password" := inl (ConfigError "password")]>
                     (<["directory_name" := inr "EXT_DIR"]> ∅))));
     read_lines := fun _ => Some spec_example;
     connect_ok := fun _ _ _ => true;
     char_semantics_columns := Some ∅;
     all_db_columns := Some name_addr;
     callproc_ok := fun _ _ => true |}.

(** A world in which the stored procedure fails. *)
Definition failing_callproc_world : world :=
  {| isfile := fun _ => true;
     config_file := fun _ =>
       inr (Some (<["username" := inr "cope"]>
                   (<["password" := inr "secret"]>
                     (<["dbname" := inr "orcl"]>
                       (<["directory_name" := inr "EXT_DIR"]> ∅)))));
     read_lines := fun _ => Some spec_example;
     connect_ok := fun _ _ _ => true;
     char_semantics_columns := Some ∅;
     all_db_columns := Some name_addr;
     callproc_ok := fun _ _ => false |}.

(** ** Proof steps *)

Ltac unfold_run :=
  unfold bind, try_except, emit, raise, ret, sys_exit, log_and_quit, lift_sum in *.

(** An event of a kind that does not occur in the listed trace. *)
Ltac absent :=
  let H := fresh in
  intros H;
  repeat (apply elem_of_app in H as [H|H]);
  repeat (apply elem_of_cons in H as [H|H]; [discriminate H|]);
  try (apply elem_of_nil in H; destruct H).

(** The run did not end normally and neither printed nor applied DDL. *)
Ltac quiet_trace :=
  simpl; split; [discriminate|]; split; [intros ? ?; absent|intros ?; absent].

(** * Properties *)

(** ** The string primitives on examples *)

Example upper_ex : PyStr.upper "name_1" = "NAME_1". Proof. reflexivity. Qed.
Example split_ex : PyStr.split "," "a,b,,c" = ["a"; "b"; ""; "c"]. Proof. reflexivity. Qed.
Example split_ex0 : PyStr.split "," "" = [""]. Proof. reflexivity. Qed.
Example int_ex1 : PyStr.int (" 10" ++ PyStr.nl) = Some 10. Proof. reflexivity. Qed.
Example int_ex2 : PyStr.int "-1_000" = Some (-1000). Proof. reflexivity. Qed.
Example int_ex3 : PyStr.int "1__0" = None. Proof. reflexivity. Qed.
Example int_ex4 : PyStr.int "x" = None. Proof. reflexivity. Qed.
Example int_ex5 : PyStr.int "" = None. Proof. reflexivity. Qed.
Example int_ex6 : PyStr.int "1 0" = None. Proof. reflexivity. Qed.
Example int_ex7 : PyStr.int "007" = Some 7. Proof. reflexivity. Qed.
Example int_ex8 : PyStr.int "5_" = None. Proof. reflexivity. Qed.
Example str_ex1 : PyStr.str 0 = "0". Proof. reflexivity. Qed.
Example str_ex2 : PyStr.str (-15) = "-15". Proof. reflexivity. Qed.
Example str_ex3 : PyStr.str 120 = "120". Proof. reflexivity. Qed.
Example join_ex : PyStr.join ", " ["a"; "b"; "c"] = "a, b, c". Proof. reflexivity. Qed.

(** ** Facts about the string primitives *)

Lemma upper_char_idem c : PyStr.upper_char (PyStr.upper_char c) = PyStr.upper_char c.
Proof.
  destruct c as [[] [] [] [] [] [] [] []]; reflexivity.
Qed.

Lemma upper_idem s : PyStr.upper (PyStr.upper s) = PyStr.upper s.
Proof.
  induction s as [|c s IH]; simpl; [reflexivity|].
  now rewrite upper_char_idem, IH.
Qed.

Lemma split_nonempty sep s : PyStr.split sep s <> [].
Proof.
  destruct s as [|c s]; simpl; [discriminate|].
  destruct (Ascii.eqb c sep); [discriminate|].
  destruct (PyStr.split sep s); discriminate.
Qed.

Lemma parse_line_name line name len :
  parse_line line = inr (name, len) -> name = line_name line.
Proof.
  unfold parse_line, line_name.
  destruct (PyStr.split "," line) as [|p0 [|p1 rest]]; try discriminate.
  destruct (PyStr.int p1); [|discriminate].
  now intros [= <- _].
Qed.

Lemma parse_line_upper line name len :
  parse_line line = inr (name, len) -> PyStr.upper name = name.
Proof.
  intros H. rewrite (parse_line_name _ _ _ H). apply upper_idem.
Qed.

(** ** The loop and its structured reading agree *)

Lemma extend_nil char st : extend char st [] = st.
Proof.
  destruct st as [ac off wl wo]. unfold extend; simpl.
  f_equal; [apply union_empty_r_L | lia | apply app_nil_r | apply app_nil_r].
Qed.

Lemma extend_cons char st c cols :
  extend char
    {| all_columns := all_columns st ∪ {[col_name c]};
       offset := offset st + col_length c;
       with_lengths := (with_lengths st ++ [render_length char c])%list;
       with_offsets := (with_offsets st ++ [render_offset c])%list |} cols
  = extend char st (c :: cols).
Proof.
  unfold extend; simpl. f_equal.
  - now rewrite (assoc_L (∪)).
  - lia.
  - now rewrite <- app_assoc.
  - now rewrite <- app_assoc.
Qed.

Lemma for_lines_scan char lines : forall st,
  for_lines char st lines =
  match scan (offset st) lines with
  | inl e => inl e
  | inr cols => inr (extend char st cols)
  end.
Proof.
  induction lines as [|line rest IH]; intros st; simpl.
  - now rewrite extend_nil.
  - unfold loop_body.
    destruct (parse_line line) as [e|[name len]] eqn:Hp; [reflexivity|].
    destruct (String.eqb name "EOR"); [now rewrite extend_nil|].
    rewrite IH; simpl.
    destruct (scan (offset st + len) rest) as [e|cols]; [reflexivity|].
    rewrite (parse_line_upper _ _ _ Hp).
    f_equal.
    exact (extend_cons char st
             {| col_name := name; col_length := len;
                col_first := offset st + 1; col_last := offset st + len |} cols).
Qed.

Lemma for_lines_init char lines :
  for_lines char init_locals lines =
  match scan 0 lines with
  | inl e => inl e
  | inr cols =>
      inr {| all_columns := list_to_set (col_name <$> cols);
             offset := total_length cols;
             with_lengths := render_length char <$> cols;
             with_offsets := render_offset <$> cols |}
  end.
Proof.
  rewrite for_lines_scan; simpl.
  destruct (scan 0 lines) as [e|cols]; [reflexivity|].
  unfold extend; simpl. f_equal. f_equal. apply union_empty_l_L.
Qed.

(** Where each accepted column sits: its first position is one past the
    lengths of all columns accepted before it. *)
Lemma scan_positions lines : forall o cols k c,
  scan o lines = inr cols -> cols !! k = Some c ->
  col_first c = o + total_length (take k cols) + 1 /\
  col_last c = o + total_length (take k cols) + col_length c.
Proof.
  induction lines as [|line rest IH]; intros o cols k c; simpl.
  - intros [= <-]. now rewrite lookup_nil.
  - destruct (parse_line line) as [e|[name len]]; [discriminate|].
    destruct (String.eqb name "EOR").
    + intros [= <-]. now rewrite lookup_nil.
    + destruct (scan (o + len) rest) as [e|cols'] eqn:Hs; [discriminate|].
      intros [= <-]. destruct k as [|k]; simpl.
      * intros [= <-]; simpl. lia.
      * intros Hk. destruct (IH _ _ _ _ Hs Hk) as [Hf Hl]. lia.
Qed.

Lemma scan_names lines : forall o cols,
  scan o lines = inr cols -> Forall (fun c => col_name c <> "EOR") cols.
Proof.
  induction lines as [|line rest IH]; intros o cols; simpl.
  - intros [= <-]. constructor.
  - destruct (parse_line line) as [e|[name len]]; [discriminate|].
    destruct (String.eqb name "EOR") eqn:He.
    + intros [= <-]. constructor.
    + destruct (scan (o + len) rest) as [e|cols'] eqn:Hs; [discriminate|].
      intros [= <-]. constructor; [|eauto].
      simpl. now apply String.eqb_neq.
Qed.

Lemma total_length_pos cols :
  Forall (fun c => 0 < col_length c) cols -> 0 <= total_length cols.
Proof.
  induction 1; simpl; lia.
Qed.

Lemma total_length_app xs ys :
  total_length (xs ++ ys) = total_length xs + total_length ys.
Proof.
  induction xs as [|x xs IH]; simpl; lia.
Qed.

Lemma valid_descriptor_scan lines : forall o,
  valid_descriptor lines = true ->
  exists cols, scan o lines = inr cols /\ Forall (fun c => 0 < col_length c) cols.
Proof.
  induction lines as [|line rest IH]; intros o; simpl.
  - intros _. exists []. split; [reflexivity|constructor].
  - destruct (parse_line line) as [e|[name len]]; [discriminate|].
    destruct (String.eqb name "EOR").
    + intros _. exists []. split; [reflexivity|constructor].
    + intros [Hlen Hrest]%andb_prop.
      destruct (IH (o + len) Hrest) as (cols & -> & Hpos).
      eexists. split; [reflexivity|].
      constructor; [simpl; lia|exact Hpos].
Qed.

Lemma symmetric_difference_empty (a b : gset string) :
  symmetric_difference a b = ∅ <-> a = b.
Proof.
  unfold symmetric_difference. split.
  - intros H. apply set_eq. intros x.
    assert (Hx : x ∉ (a ∖ b) ∪ (b ∖ a)) by (rewrite H; apply not_elem_of_empty).
    rewrite elem_of_union, !elem_of_difference in Hx.
    destruct (decide (x ∈ a)), (decide (x ∈ b)); tauto.
  - intros ->. apply set_eq. intros x.
    rewrite elem_of_union, !elem_of_difference, elem_of_empty. tauto.
Qed.

Lemma collect_columns_cases w path char db tr :
  collect_columns w path char db tr =
  match read_lines w path with
  | None =>
      (SystemExit None, (tr ++ [OpenFile path; LogError (OfExn (OSError path))])%list)
  | Some lines =>
      match for_lines char init_locals lines with
      | inl e => (SystemExit None, (tr ++ [OpenFile path; LogError (OfExn e)])%list)
      | inr st =>
          if decide (symmetric_difference db (all_columns st) = ∅)
          then (Return (fragments_of st), (tr ++ [OpenFile path])%list)
          else (SystemExit None,
                (tr ++ [OpenFile path;
                        PrintDiscrepancies (symmetric_difference db (all_columns st))])%list)
      end
  end.
Proof.
  unfold collect_columns, open_lines. unfold_run.
  destruct (read_lines w path) as [lines|]; simpl.
  - destruct (for_lines char init_locals lines) as [e|st]; simpl.
    + now rewrite <- app_assoc.
    + destruct (decide (symmetric_difference db (all_columns st) = ∅)); simpl.
      * reflexivity.
      * now rewrite <- app_assoc.
  - now rewrite <- app_assoc.
Qed.

Lemma gen_ddl_cases w all_args tr :
  gen_ddl w all_args tr =
  match char_semantics_columns w with
  | None => (Raise (DatabaseError "execute"), (tr ++ [QueryCharSemantics])%list)
  | Some char =>
      match all_db_columns w with
      | None =>
          (Raise (DatabaseError "execute"),
           (tr ++ [QueryCharSemantics; QueryAllColumns])%list)
      | Some db =>
          let path := fmt_path (given all_args) in
          let tr' := (tr ++ [QueryCharSemantics; QueryAllColumns; OpenFile path])%list in
          match read_lines w path with
          | None => (SystemExit None, (tr' ++ [LogError (OfExn (OSError path))])%list)
          | Some lines =>
              match for_lines char init_locals lines with
              | inl e => (SystemExit None, (tr' ++ [LogError (OfExn e)])%list)
              | inr st =>
                  if decide (symmetric_difference db (all_columns st) = ∅)
                  then (Return (ddl_of all_args st), tr')
                  else (SystemExit None,
                        (tr' ++ [PrintDiscrepancies
                                   (symmetric_difference db (all_columns st))])%list)
              end
          end
      end
  end.
Proof.
  unfold gen_ddl, get_char_semantics_columns, get_all_columns.
  unfold bind, emit, raise, ret.
  destruct (char_semantics_columns w) as [char|]; [|reflexivity].
  destruct (all_db_columns w) as [db|]; [|now rewrite <- app_assoc].
  rewrite collect_columns_cases. cbv zeta.
  destruct (read_lines w _) as [lines|].
  - destruct (for_lines char init_locals lines) as [e|st].
    + now rewrite <- !app_assoc.
    + destruct (decide _).
      * now rewrite <- !app_assoc.
      * now rewrite <- !app_assoc.
  - now rewrite <- !app_assoc.
Qed.

Lemma config_item_cases section item tr :
  config_item section item tr =
  match section !! item with
  | Some (inr v) => (Return v, tr)
  | Some (inl e) => (Raise e, tr)
  | None =>
      (SystemExit None,
       (tr ++ [LogError (Text ("Missing parameter " ++ item ++ " "))])%list)
  end.
Proof.
  unfold config_item. destruct (section !! item) as [[e|v]|]; reflexivity.
Qed.

(** The four look-ups of [expand_args], one after the other. *)
Lemma expand_args_cases w argv tr :
  expand_args w argv tr =
  let missing item :=
    (SystemExit None : result args,
     (tr ++ [LogError (Text ("Missing parameter " ++ item ++ " "))])%list) in
  if isfile w (dbconfig_path argv) then
    match config_file w (dbconfig_path argv) with
    | inl e => (Raise e, tr)
    | inr None => (SystemExit None, (tr ++ [LogError (Text "No database found")])%list)
    | inr (Some section) =>
        match section !! "username" with
        | None => missing "username"
        | Some (inl e) => (Raise e, tr)
        | Some (inr u) =>
        match section !! "password" with
        | None => missing "password"
        | Some (inl e) => (Raise e, tr)
        | Some (inr p) =>
        match section !! "dbname" with
        | None => missing "dbname"
        | Some (inl e) => (Raise e, tr)
        | Some (inr d) =>
        match section !! "directory_name" with
        | None => missing "directory_name"
        | Some (inl e) => (Raise e, tr)
        | Some (inr dir) =>
            (Return {| given := argv;
                       table_name := "NEW_MEMBER_" ++ affiliate_acronym argv ++ "_EXT";
                       username := u; password := p; dbname := d;
                       directory_name := dir |}, tr)
        end end end end
    end
  else (SystemExit None,
        (tr ++ [LogError (Text ("No such file: " ++ dbconfig_path argv))])%list).
Proof.
  unfold expand_args. unfold_run. cbv zeta.
  destruct (isfile w (dbconfig_path argv)); [|reflexivity].
  destruct (config_file w (dbconfig_path argv)) as [e|[section|]];
    unfold_run; cbn beta iota; try reflexivity.
  rewrite !config_item_cases.
  destruct (section !! "username") as [[e|u]|]; try reflexivity.
  rewrite !config_item_cases.
  destruct (section !! "password") as [[e|p]|]; try reflexivity.
  rewrite !config_item_cases.
  destruct (section !! "dbname") as [[e|d]|]; try reflexivity.
  rewrite !config_item_cases.
  destruct (section !! "directory_name") as [[e|dir]|]; reflexivity.
Qed.

(** The loop over the four items, read on its own, against the look-ups. *)
Lemma get_items_cases (section : gmap string (exn + string)) :
  get_items section config_items =
  match section !! "username" with
  | None => Missing "username"
  | Some (inl e) => GetRaises e
  | Some (inr _) =>
  match section !! "password" with
  | None => Missing "password"
  | Some (inl e) => GetRaises e
  | Some (inr _) =>
  match section !! "dbname" with
  | None => Missing "dbname"
  | Some (inl e) => GetRaises e
  | Some (inr _) =>
  match section !! "directory_name" with
  | None => Missing "directory_name"
  | Some (inl e) => GetRaises e
  | Some (inr _) => AllPresent
  end end end end.
Proof. reflexivity. Qed.

(** [expand_args] either fills in the arguments without any output, or logs
    one error and exits, or lets configparser's exception through. *)
Lemma expand_args_outcome w argv tr :
  (exists a, expand_args w argv tr = (Return a, tr) /\ given a = argv /\
             table_name a = "NEW_MEMBER_" ++ affiliate_acronym argv ++ "_EXT")
  \/ (exists m, expand_args w argv tr = (SystemExit None, (tr ++ [LogError m])%list))
  \/ (exists e, expand_args w argv tr = (Raise e, tr) /\
                read_config w (dbconfig_path argv) = inl e).
Proof.
  rewrite expand_args_cases. unfold read_config. cbv zeta.
  destruct (isfile w (dbconfig_path argv)); [|right; left; eauto].
  destruct (config_file w (dbconfig_path argv)) as [e|[section|]];
    [right; right; eauto|..|right; left; eauto].
  rewrite get_items_cases.
  destruct (section !! "username") as [[e|u]|];
    [right; right; eauto|..|right; left; eauto].
  destruct (section !! "password") as [[e|p]|];
    [right; right; eauto|..|right; left; eauto].
  destruct (section !! "dbname") as [[e|d]|];
    [right; right; eauto|..|right; left; eauto].
  destruct (section !! "directory_name") as [[e|dir]|];
    [right; right; eauto|..|right; left; eauto].
  left. eexists. split; [reflexivity|]. now split.
Qed.

Lemma main_after_expand w argv a tr :
  expand_args w argv tr = (Return a, tr) ->
  main w argv tr =
  let tr1 := (tr ++ [Connect (username a) (password a) (dbname a)])%list in
  if connect_ok w (username a) (password a) (dbname a) then
    match gen_ddl w a tr1 with
    | (Return ddl, tr2) =>
        if show_only argv then (Return tt, (tr2 ++ [Print ddl])%list)
        else (if callproc_ok w (table_name a) ddl then Return tt
              else Raise (DatabaseError "callproc"),
              (tr2 ++ [CallProc (table_name a) ddl])%list)
    | (Raise e, tr2) => (Raise e, tr2)
    | (SystemExit c, tr2) => (SystemExit c, tr2)
    end
  else (Raise (DatabaseError "connect"), tr1).
Proof.
  intros He. unfold main. unfold bind at 1. rewrite He.
  unfold get_cursor, create_table. unfold bind, emit, ret, raise. cbv zeta.
  destruct (connect_ok w _ _ _); [|reflexivity].
  destruct (gen_ddl w a _) as [[ddl|e|c] tr2]; try reflexivity.
  destruct (show_only argv); [reflexivity|].
  destruct (callproc_ok w _ _); reflexivity.
Qed.

(** ** Columns, lines and the sentinel *)

(** Each accepted column is the parse of the line at the same position. *)
Lemma scan_lines lines : forall o cols,
  scan o lines = inr cols ->
  Forall2 (fun c l => parse_line l = inr (col_name c, col_length c))
          cols (take (length cols) lines).
Proof.
  induction lines as [|line rest IH]; intros o cols; simpl.
  - intros [= <-]. constructor.
  - destruct (parse_line line) as [e|[name len]] eqn:Hp; [discriminate|].
    destruct (String.eqb name "EOR").
    + intros [= <-]. constructor.
    + destruct (scan (o + len) rest) as [e|cols'] eqn:Hs; [discriminate|].
      intros [= <-]. simpl. constructor; [exact Hp|eauto].
Qed.

Lemma loop_body_sentinel char st line :
  line_name line = "EOR" ->
  loop_body char st line =
  match parse_line line with
  | inl e => Fail e
  | inr _ => Break
  end.
Proof.
  intros Hn. unfold loop_body.
  destruct (parse_line line) as [e|[name len]] eqn:Hp; [reflexivity|].
  rewrite (parse_line_name _ _ _ Hp), Hn. reflexivity.
Qed.

Lemma loop_body_column char st line :
  line_name line <> "EOR" -> loop_body char st line <> Break.
Proof.
  intros Hn. unfold loop_body.
  destruct (parse_line line) as [e|[name len]] eqn:Hp; [discriminate|].
  rewrite (parse_line_name _ _ _ Hp).
  apply String.eqb_neq in Hn. now rewrite Hn.
Qed.

(** Without a sentinel in [pre], the loop runs through [pre] and goes on
    with what follows. *)
Lemma for_lines_app char pre rest : forall st,
  Forall (fun l => line_name l <> "EOR") pre ->
  for_lines char st (pre ++ rest) =
  match for_lines char st pre with
  | inl e => inl e
  | inr st' => for_lines char st' rest
  end.
Proof.
  induction pre as [|line pre IH]; intros st Hpre; simpl; [reflexivity|].
  inversion Hpre as [|? ? Hline Hpre']; subst.
  pose proof (loop_body_column char st line Hline) as Hb.
  destruct (loop_body char st line) as [st'| |e]; [now apply IH|congruence|reflexivity].
Qed.

Lemma scan_length_no_sentinel pre : forall o cols,
  Forall (fun l => line_name l <> "EOR") pre ->
  scan o pre = inr cols -> length cols = length pre.
Proof.
  induction pre as [|line pre IH]; intros o cols Hpre; simpl.
  - now intros [= <-].
  - inversion Hpre as [|? ? Hline Hpre']; subst.
    destruct (parse_line line) as [e|[name len]] eqn:Hp; [discriminate|].
    rewrite (parse_line_name _ _ _ Hp).
    apply String.eqb_neq in Hline. rewrite Hline.
    destruct (scan (o + len) pre) as [e|cols'] eqn:Hs; [discriminate|].
    intros [= <-]. simpl. f_equal. eauto.
Qed.

Lemma total_length_take_mono cols : forall i j,
  Forall (fun c => 0 < col_length c) cols -> (i <= j)%nat ->
  total_length (take i cols) <= total_length (take j cols).
Proof.
  induction cols as [|c cols IH]; intros i j Hpos Hij.
  - rewrite !take_nil. lia.
  - inversion Hpos as [|? ? Hc Hpos']; subst.
    destruct i as [|i], j as [|j]; simpl; try lia.
    + pose proof (total_length_pos (take j cols) (Forall_take _ j _ Hpos')). lia.
    + assert (Hle : (i <= j)%nat) by lia.
      pose proof (IH i j Hpos' Hle). lia.
Qed.

Lemma total_length_take_S cols k c :
  cols !! k = Some c ->
  total_length (take (S k) cols) = total_length (take k cols) + col_length c.
Proof.
  intros Hk. rewrite (take_S_r _ _ _ Hk), total_length_app. simpl. lia.
Qed.

(** ** Properties of the parser *)

(** C1. For a valid descriptor (every line up to the sentinel parses, with
    a positive length on the column lines) the loop of [collect_columns]
    ends normally with one [with_offsets] entry per accepted line, each the
    quoted name, a tab and [POSITION(<first>:<last>)], where name and length
    are those parsed from the line and the ranges are contiguous and
    non-overlapping: the first starts at 1, each satisfies
    last = first + length - 1, each next one starts at the previous
    last + 1, and an earlier range ends before any later one starts. *)
Theorem offset_ranges_contiguous (char : gset string) (lines : list string) :
  valid_descriptor lines = true ->
  exists cols st,
    scan 0 lines = inr cols /\
    for_lines char init_locals lines = inr st /\
    Forall2 (fun c l => parse_line l = inr (col_name c, col_length c))
            cols (take (length cols) lines) /\
    with_offsets st =
      (fun c => (PyStr.dquote ++ col_name c ++ PyStr.dquote ++ PyStr.tab
                 ++ "POSITION(" ++ PyStr.str (col_first c) ++ ":"
                 ++ PyStr.str (col_last c) ++ ")")%string) <$> cols /\
    (forall c, cols !! 0%nat = Some c -> col_first c = 1) /\
    (forall k c, cols !! k = Some c ->
       col_last c = col_first c + col_length c - 1 /\ col_first c <= col_last c) /\
    (forall k c d, cols !! k = Some c -> cols !! S k = Some d ->
       col_first d = col_last c + 1) /\
    (forall i j c d, (i < j)%nat -> cols !! i = Some c -> cols !! j = Some d ->
       col_last c < col_first d).
Proof.
  intros Hv.
  destruct (valid_descriptor_scan lines 0 Hv) as (cols & Hs & Hpos).
  exists cols. eexists. split; [exact Hs|].
  split; [rewrite for_lines_init, Hs; reflexivity|].
  split; [exact (scan_lines _ _ _ Hs)|].
  split; [reflexivity|].
  split; [|split; [|split]].
  - intros c Hc. destruct (scan_positions _ _ _ _ _ Hs Hc) as [Hf _].
    simpl in Hf. lia.
  - intros k c Hc. destruct (scan_positions _ _ _ _ _ Hs Hc) as [Hf Hl].
    assert (0 < col_length c).
    { rewrite Forall_lookup in Hpos. exact (Hpos _ _ Hc). }
    lia.
  - intros k c d Hc Hd.
    destruct (scan_positions _ _ _ _ _ Hs Hc) as [_ Hl].
    destruct (scan_positions _ _ _ _ _ Hs Hd) as [Hf _].
    rewrite (total_length_take_S _ _ _ Hc) in Hf. lia.
  - intros i j c d Hij Hc Hd.
    destruct (scan_positions _ _ _ _ _ Hs Hc) as [_ Hl].
    destruct (scan_positions _ _ _ _ _ Hs Hd) as [Hf _].
    assert (Hle : (S i <= j)%nat) by lia.
    pose proof (total_length_take_mono cols (S i) j Hpos Hle) as Hm.
    rewrite (total_length_take_S _ _ _ Hc) in Hm. lia.
Qed.

Lemma offset_ranges_contiguous_witness :
  valid_descriptor spec_example = true /\
  scan 0 spec_example =
    inr [ {| col_name := "NAME"; col_length := 10; col_first := 1; col_last := 10 |};
          {| col_name := "ADDR"; col_length := 20; col_first := 11; col_last := 30 |} ] /\
  for_lines ∅ init_locals spec_example =
    inr {| all_columns := name_addr;
           offset := 30;
           with_lengths := ["NAME VARCHAR2(10 BYTE)"; "ADDR VARCHAR2(20 BYTE)"];
           with_offsets :=
             [PyStr.dquote ++ "NAME" ++ PyStr.dquote ++ PyStr.tab ++ "POSITION(1:10)";
              PyStr.dquote ++ "ADDR" ++ PyStr.dquote ++ PyStr.tab ++ "POSITION(11:30)"] |} /\
  exists cols st,
    scan 0 spec_example = inr cols /\
    for_lines ∅ init_locals spec_example = inr st /\
    Forall2 (fun c l => parse_line l = inr (col_name c, col_length c))
            cols (take (length cols) spec_example) /\
    with_offsets st =
      (fun c => (PyStr.dquote ++ col_name c ++ PyStr.dquote ++ PyStr.tab
                 ++ "POSITION(" ++ PyStr.str (col_first c) ++ ":"
                 ++ PyStr.str (col_last c) ++ ")")%string) <$> cols /\
    (forall c, cols !! 0%nat = Some c -> col_first c = 1) /\
    (forall k c, cols !! k = Some c ->
       col_last c = col_first c + col_length c - 1 /\ col_first c <= col_last c) /\
    (forall k c d, cols !! k = Some c -> cols !! S k = Some d ->
       col_first d = col_last c + 1) /\
    (forall i j c d, (i < j)%nat -> cols !! i = Some c -> cols !! j = Some d ->
       col_last c < col_first d).
Proof.
  split; [reflexivity|].
  split; [vm_compute; reflexivity|].
  split; [vm_compute; reflexivity|].
  apply (offset_ranges_contiguous ∅ spec_example). reflexivity.
Defined.

Lemma char_used_cases char name :
  (char_used char name = "CHAR" <-> name ∈ char) /\
  (char_used char name = "BYTE" <-> name ∉ char).
Proof.
  unfold char_used. destruct (decide (name ∈ char)); split; split;
    intros; try discriminate; try tauto; try reflexivity.
Qed.

(** C5. Whenever the loop of [collect_columns] ends normally, every entry
    of [with_lengths] is [<name> VARCHAR2(<length> <unit>)] for the column at
    the same position, where the name is the upper-cased first field of its
    line, and the unit is CHAR exactly when that name is in the
    character-semantics set and BYTE exactly when it is not. *)
Theorem unit_char_iff_listed (char : gset string) (lines : list string) (st : locals) :
  for_lines char init_locals lines = inr st ->
  exists cols,
    scan 0 lines = inr cols /\
    Forall2 (fun c l => col_name c = line_name l) cols (take (length cols) lines) /\
    Forall2 (fun c s =>
               exists unit,
                 s = fmt_length (col_name c) (col_length c) unit /\
                 (unit = "CHAR" <-> col_name c ∈ char) /\
                 (unit = "BYTE" <-> col_name c ∉ char))
            cols (with_lengths st).
Proof.
  rewrite for_lines_init.
  destruct (scan 0 lines) as [e|cols] eqn:Hs; [discriminate|].
  intros [= <-]. exists cols. split; [reflexivity|]. split.
  - eapply Forall2_impl; [exact (scan_lines _ _ _ Hs)|].
    intros c l Hp. exact (parse_line_name _ _ _ Hp).
  - simpl. apply Forall2_fmap_r, Forall_Forall2_diag, Forall_forall.
    intros c _. exists (char_used char (col_name c)).
    split; [reflexivity|]. apply char_used_cases.
Qed.

Lemma unit_char_iff_listed_witness :
  exists st,
    for_lines {["CITY"]} init_locals city_example = inr st /\
    with_lengths st = ["CITY VARCHAR2(15 CHAR)"; "STATE VARCHAR2(2 BYTE)"] /\
    exists cols,
      scan 0 city_example = inr cols /\
      Forall2 (fun c l => col_name c = line_name l)
              cols (take (length cols) city_example) /\
      Forall2 (fun c s =>
                 exists unit,
                   s = fmt_length (col_name c) (col_length c) unit /\
                   (unit = "CHAR" <-> col_name c ∈ ({["CITY"]} : gset string)) /\
                   (unit = "BYTE" <-> col_name c ∉ ({["CITY"]} : gset string)))
              cols (with_lengths st).
Proof.
  eexists. split; [vm_compute; reflexivity|]. split; [reflexivity|].
  apply (unit_char_iff_listed {["CITY"]} city_example). vm_compute. reflexivity.
Defined.

(** C6. Parsing stops at the first line whose first field upper-cases to
    EOR: what the loop yields does not depend on the lines after it, and
    when the loop ends normally its locals are those reached on the lines
    before the sentinel, one column per such line, none of them named EOR
    in the name set or in either list of rendered entries. *)
Theorem parsing_stops_at_sentinel (char : gset string) (pre post : list string)
    (eor : string) :
  Forall (fun l => line_name l <> "EOR") pre ->
  line_name eor = "EOR" ->
  (forall post', for_lines char init_locals (pre ++ eor :: post)
                 = for_lines char init_locals (pre ++ eor :: post')) /\
  forall st, for_lines char init_locals (pre ++ eor :: post) = inr st ->
    for_lines char init_locals pre = inr st /\
    ("EOR" ∉ all_columns st) /\
    exists cols,
      scan 0 pre = inr cols /\
      length cols = length pre /\
      Forall (fun c => col_name c <> "EOR") cols /\
      with_lengths st = render_length char <$> cols /\
      with_offsets st = render_offset <$> cols.
Proof.
  intros Hpre Heor.
  assert (Hstop : forall rest,
    for_lines char init_locals (pre ++ eor :: rest) =
    match for_lines char init_locals pre with
    | inl e => inl e
    | inr st' => match parse_line eor with inl e => inl e | inr _ => inr st' end
    end).
  { intros rest. rewrite (for_lines_app _ _ _ _ Hpre).
    destruct (for_lines char init_locals pre) as [e|st']; [reflexivity|].
    simpl. rewrite (loop_body_sentinel _ _ _ Heor).
    destruct (parse_line eor); reflexivity. }
  split.
  - intros post'. now rewrite !Hstop.
  - intros st. rewrite Hstop.
    destruct (for_lines char init_locals pre) as [e|st'] eqn:Hf; [discriminate|].
    destruct (parse_line eor); [discriminate|]. intros [= ->].
    split; [reflexivity|].
    rewrite for_lines_init in Hf.
    destruct (scan 0 pre) as [e|cols] eqn:Hs; [discriminate|].
    injection Hf as <-. simpl.
    pose proof (scan_names _ _ _ Hs) as Hn.
    split.
    + rewrite elem_of_list_to_set, list_elem_of_fmap.
      intros (c & Hc & Hin). rewrite Forall_forall in Hn.
      exact (Hn c Hin (eq_sym Hc)).
    + exists cols. split; [reflexivity|].
      split; [exact (scan_length_no_sentinel _ _ _ Hpre Hs)|].
      split; [exact Hn|]. split; reflexivity.
Qed.

Lemma parsing_stops_at_sentinel_witness :
  (forall post', for_lines ∅ init_locals (["NAME,10"; "ADDR,20"] ++ "eor,0" :: ["junk"])
                 = for_lines ∅ init_locals (["NAME,10"; "ADDR,20"] ++ "eor,0" :: post')) /\
  forall st,
    for_lines ∅ init_locals (["NAME,10"; "ADDR,20"] ++ "eor,0" :: ["junk"]) = inr st ->
    for_lines ∅ init_locals ["NAME,10"; "ADDR,20"] = inr st /\
    ("EOR" ∉ all_columns st) /\
    exists cols,
      scan 0 ["NAME,10"; "ADDR,20"] = inr cols /\
      length cols = length ["NAME,10"; "ADDR,20"] /\
      Forall (fun c => col_name c <> "EOR") cols /\
      with_lengths st = render_length ∅ <$> cols /\
      with_offsets st = render_offset <$> cols.
Proof.
  apply (parsing_stops_at_sentinel ∅ ["NAME,10"; "ADDR,20"] ["junk"] "eor,0").
  - repeat constructor; vm_compute; discriminate.
  - reflexivity.
Defined.

(** C9. The loop body parses the length before it looks at the name: it
    reaches [break] only on a line that has an integer second field and whose
    name is EOR.  So a line meant as the sentinel (or any other line the loop
    reaches) that has no second field, or a second field that is not an
    integer, makes [collect_columns] log the IndexError or ValueError and
    exit instead of returning. *)
Theorem sentinel_needs_a_length (w : world) (path : string)
    (char db : gset string) (pre post : list string) (eor : string)
    (tr : list event) :
  read_lines w path = Some (pre ++ eor :: post)%list ->
  Forall (fun l => line_name l <> "EOR" /\ exists n len, parse_line l = inr (n, len)) pre ->
  (tail (PyStr.split "," eor) = [] \/
   exists field rest, tail (PyStr.split "," eor) = field :: rest /\
                      PyStr.int field = None) ->
  (forall st line, loop_body char st line = Break <->
                   exists len, parse_line line = inr ("EOR", len)) /\
  exists e,
    (e = IndexError \/ exists field, e = ValueError field) /\
    parse_line eor = inl e /\
    collect_columns w path char db tr =
      (SystemExit None, (tr ++ [OpenFile path; LogError (OfExn e)])%list).
Proof.
  intros Hread Hpre Hbad. split.
  - intros st line. unfold loop_body.
    destruct (parse_line line) as [e|[name len]] eqn:Hp.
    + split; [discriminate|]. intros [len [=]].
    + destruct (String.eqb name "EOR") eqn:He.
      * apply String.eqb_eq in He. subst name.
        split; [eauto|reflexivity].
      * apply String.eqb_neq in He.
        split; [discriminate|]. intros [len' [= Hn _]]. contradiction.
  - assert (Hparse : exists e, (e = IndexError \/ exists field, e = ValueError field)
                               /\ parse_line eor = inl e).
    { unfold parse_line. pose proof (split_nonempty "," eor) as Hne.
      destruct (PyStr.split "," eor) as [|p0 fields]; [contradiction|].
      simpl in Hbad. destruct Hbad as [->|(field & rest & -> & Hint)].
      - exists IndexError. split; [now left|reflexivity].
      - exists (ValueError field). rewrite Hint. split; [right; eauto|reflexivity]. }
    destruct Hparse as (e & Hkind & Hparse).
    exists e. split; [exact Hkind|]. split; [exact Hparse|].
    rewrite collect_columns_cases, Hread.
    assert (Hnames : Forall (fun l => line_name l <> "EOR") pre).
    { eapply Forall_impl; [exact Hpre|]. now intros l [H _]. }
    rewrite (for_lines_app _ _ _ _ Hnames).
    assert (Hok : exists st, for_lines char init_locals pre = inr st).
    { clear Hread Hnames. generalize init_locals.
      induction Hpre as [|l pre' [Hl (n & len & Hp)] _ IH]; intros st0; simpl.
      - eauto.
      - unfold loop_body. rewrite Hp.
        rewrite (parse_line_name _ _ _ Hp).
        apply String.eqb_neq in Hl. rewrite Hl. apply IH. }
    destruct Hok as [st ->]. simpl.
    unfold loop_body. rewrite Hparse. reflexivity.
Qed.

Lemma sentinel_needs_a_length_witness :
  parse_line "EOR" = inl IndexError /\
  parse_line "EOR,x" = inl (ValueError "x") /\
  exists e,
    (e = IndexError \/ exists field, e = ValueError field) /\
    parse_line ("EOR" ++ PyStr.nl) = inl e /\
    collect_columns
      (sample_world (Some ["NAME,10" ++ PyStr.nl; "EOR" ++ PyStr.nl]) ∅ {["NAME"]})
      "member.fmt" ∅ {["NAME"]} [] =
      (SystemExit None, [OpenFile "member.fmt"; LogError (OfExn e)]).
Proof.
  split; [reflexivity|]. split; [reflexivity|].
  apply (sentinel_needs_a_length
           (sample_world (Some ["NAME,10" ++ PyStr.nl; "EOR" ++ PyStr.nl]) ∅ {["NAME"]})
           "member.fmt" ∅ {["NAME"]} ["NAME,10" ++ PyStr.nl] [] ("EOR" ++ PyStr.nl) []).
  - reflexivity.
  - repeat constructor; [vm_compute; discriminate|].
    exists "NAME", 10. reflexivity.
  - left. reflexivity.
Defined.

Lemma parsed_names_scan lines : forall o,
  parsed_names lines =
  match scan o lines with
  | inl _ => None
  | inr cols => Some (list_to_set (col_name <$> cols))
  end.
Proof.
  induction lines as [|line rest IH]; intros o; simpl; [reflexivity|].
  destruct (parse_line line) as [e|[name len]]; [reflexivity|].
  destruct (String.eqb name "EOR"); [reflexivity|].
  rewrite (IH (o + len)).
  destruct (scan (o + len) rest); reflexivity.
Qed.

Lemma for_lines_names char lines :
  match for_lines char init_locals lines with
  | inl _ => parsed_names lines = None
  | inr st => parsed_names lines = Some (all_columns st)
  end.
Proof.
  rewrite for_lines_init, (parsed_names_scan lines 0).
  destruct (scan 0 lines); reflexivity.
Qed.

Lemma reports_discrepancy_iff w path char db :
  reports_discrepancy w path char db <->
  exists lines names,
    read_lines w path = Some lines /\ parsed_names lines = Some names /\ names <> db.
Proof.
  unfold reports_discrepancy. rewrite collect_columns_cases.
  destruct (read_lines w path) as [lines|].
  - pose proof (for_lines_names char lines) as Hn.
    destruct (for_lines char init_locals lines) as [e|st]; cbn beta iota in Hn.
    + split.
      * intros [names H]. exfalso. revert H. simpl. absent.
      * intros (l & names & [= <-] & Hp & _). rewrite Hn in Hp. discriminate Hp.
    + destruct (decide (symmetric_difference db (all_columns st) = ∅)) as [Hd|Hd].
      * apply (proj1 (symmetric_difference_empty _ _)) in Hd. split.
        -- intros [names H]. exfalso. revert H. simpl. absent.
        -- intros (l & names & [= <-] & Hp & Hne). rewrite Hn in Hp.
           injection Hp as <-. exfalso. apply Hne. now symmetry.
      * split.
        -- intros _. exists lines, (all_columns st).
           split; [reflexivity|]. split; [exact Hn|].
           intros Heq. apply Hd, symmetric_difference_empty. now symmetry.
        -- intros _. eexists. simpl. apply elem_of_cons. right.
           apply elem_of_cons. left. reflexivity.
  - split.
    + intros [names H]. exfalso. revert H. simpl. absent.
    + intros (l & names & [=] & _).
Qed.

Lemma parsed_names_app pre rest :
  Forall (fun l => line_name l <> "EOR") pre ->
  parsed_names (pre ++ rest) =
  match parsed_names pre, parsed_names rest with
  | Some a, Some b => Some (a ∪ b)
  | _, _ => None
  end.
Proof.
  induction 1 as [|line pre Hline _ IH]; simpl.
  - destruct (parsed_names rest) as [b|]; [|reflexivity].
    now rewrite union_empty_l_L.
  - destruct (parse_line line) as [e|[name len]] eqn:Hp; [reflexivity|].
    rewrite (parse_line_name _ _ _ Hp).
    apply String.eqb_neq in Hline. rewrite Hline, IH.
    destruct (parsed_names pre) as [a|]; [|reflexivity].
    destruct (parsed_names rest) as [b|]; [|reflexivity].
    simpl. now rewrite (assoc_L (∪)).
Qed.

Lemma parsed_names_permutation pre pre' :
  Permutation pre pre' ->
  Forall (fun l => line_name l <> "EOR") pre ->
  parsed_names pre = parsed_names pre'.
Proof.
  induction 1 as [|x l l' Hperm IH|x y l|l l' l'' H1 IH1 H2 IH2]; intros Hpre.
  - reflexivity.
  - inversion Hpre as [|? ? Hx Hl]; subst. simpl.
    destruct (parse_line x) as [e|[name len]]; [reflexivity|].
    destruct (String.eqb name "EOR"); [reflexivity|].
    now rewrite (IH Hl).
  - inversion Hpre as [|? ? Hy Hl]; subst.
    inversion Hl as [|? ? Hx Hl']; subst. simpl.
    destruct (parse_line y) as [e|[ny leny]] eqn:Hpy;
      destruct (parse_line x) as [e'|[nx lenx]] eqn:Hpx; try reflexivity.
    + rewrite (parse_line_name _ _ _ Hpx).
      apply String.eqb_neq in Hx. now rewrite Hx.
    + rewrite (parse_line_name _ _ _ Hpy).
      apply String.eqb_neq in Hy. now rewrite Hy.
    + rewrite (parse_line_name _ _ _ Hpx), (parse_line_name _ _ _ Hpy).
      apply String.eqb_neq in Hx, Hy. rewrite Hx, Hy.
      destruct (parsed_names l) as [s|]; [|reflexivity]. simpl. f_equal.
      rewrite !(assoc_L (∪)). f_equal. apply (comm_L (∪)).
  - rewrite (IH1 Hpre). apply IH2.
    eapply Permutation_Forall; [exact H1|exact Hpre].
Qed.

(** C7 (as amended). Permuting the lines that stand before the first EOR
    line, with the sentinel and everything after it left in place (or
    permuting all the lines of a descriptor that has no sentinel), does not
    change whether a discrepancy is reported. *)
Theorem report_invariant_under_column_permutation (w w' : world) (path : string)
    (char db : gset string) (pre pre' rest : list string) :
  read_lines w path = Some (pre ++ rest)%list ->
  read_lines w' path = Some (pre' ++ rest)%list ->
  Permutation pre pre' ->
  Forall (fun l => line_name l <> "EOR") pre ->
  (reports_discrepancy w path char db <-> reports_discrepancy w' path char db).
Proof.
  intros Hw Hw' Hperm Hpre.
  assert (Hpre' : Forall (fun l => line_name l <> "EOR") pre')
    by (eapply Permutation_Forall; eassumption).
  assert (Hsame : parsed_names (pre ++ rest) = parsed_names (pre' ++ rest)).
  { rewrite (parsed_names_app _ _ Hpre), (parsed_names_app _ _ Hpre').
    now rewrite (parsed_names_permutation _ _ Hperm Hpre). }
  rewrite !reports_discrepancy_iff. split.
  - intros (l & names & Hl & Hn & Hne). rewrite Hw in Hl. injection Hl as <-.
    exists (pre' ++ rest)%list, names. rewrite <- Hsame. auto.
  - intros (l & names & Hl & Hn & Hne). rewrite Hw' in Hl. injection Hl as <-.
    exists (pre ++ rest)%list, names. rewrite Hsame. auto.
Qed.

Lemma report_invariant_under_column_permutation_witness :
  reports_discrepancy (sample_world (Some sentinel_last) ∅ name_addr)
                      "member.fmt" ∅ name_addr
  <-> reports_discrepancy (sample_world (Some columns_swapped) ∅ name_addr)
                          "member.fmt" ∅ name_addr.
Proof.
  apply (report_invariant_under_column_permutation
           (sample_world (Some sentinel_last) ∅ name_addr)
           (sample_world (Some columns_swapped) ∅ name_addr)
           "member.fmt" ∅ name_addr
           ["NAME,10"; "ADDR,20"] ["ADDR,20"; "NAME,10"] ["EOR,0"]).
  - reflexivity.
  - reflexivity.
  - apply perm_swap.
  - repeat constructor; vm_compute; discriminate.
Defined.

(** C7 as stated fails: moving the sentinel to the front is a permutation
    of the lines, and it turns a descriptor that reconciles into one whose
    name set is empty, which is reported. *)
Lemma permuting_the_sentinel_changes_the_report :
  Permutation sentinel_last sentinel_first /\
  ~ reports_discrepancy (sample_world (Some sentinel_last) ∅ name_addr)
                        "member.fmt" ∅ name_addr /\
  reports_discrepancy (sample_world (Some sentinel_first) ∅ name_addr)
                      "member.fmt" ∅ name_addr.
Proof.
  split; [|split].
  - unfold sentinel_last, sentinel_first.
    change ["NAME,10"; "ADDR,20"; "EOR,0"] with (["NAME,10"; "ADDR,20"] ++ ["EOR,0"])%list.
    change ["EOR,0"; "NAME,10"; "ADDR,20"] with (["EOR,0"] ++ ["NAME,10"; "ADDR,20"])%list.
    apply Permutation_app_comm.
  - rewrite reports_discrepancy_iff.
    intros (l & names & [= <-] & Hn & Hne).
    vm_compute in Hn. injection Hn as <-. apply Hne. vm_compute. reflexivity.
  - rewrite reports_discrepancy_iff.
    exists sentinel_first, ∅. split; [reflexivity|]. split; [reflexivity|].
    intros H. assert (Hin : "NAME" ∈ (∅ : gset string)).
    { rewrite H. unfold name_addr. apply elem_of_union. left.
      now apply elem_of_singleton. }
    now apply elem_of_empty in Hin.
Qed.

(** ** The whole run *)

Lemma expand_args_given w argv tr a tr' :
  expand_args w argv tr = (Return a, tr') ->
  given a = argv /\ tr' = tr /\
  table_name a = "NEW_MEMBER_" ++ affiliate_acronym argv ++ "_EXT".
Proof.
  intros He.
  destruct (expand_args_outcome w argv tr) as [(a' & He' & Hg & Ht)|[(m & He')|(e & He' & _)]];
    rewrite He in He'; try discriminate He'.
  injection He' as -> ->. auto.
Qed.

Lemma run_outcome w argv :
  (exists m, run w argv = (SystemExit None, [LogError m]))
  \/ (exists e, run w argv = (Raise e, []) /\
                read_config w (dbconfig_path argv) = inl e)
  \/ (exists a,
        expand_args w argv [] = (Return a, []) /\ given a = argv /\
        table_name a = "NEW_MEMBER_" ++ affiliate_acronym argv ++ "_EXT" /\
        run w argv =
        let tr1 := [Connect (username a) (password a) (dbname a)] in
        if connect_ok w (username a) (password a) (dbname a) then
          match gen_ddl w a tr1 with
          | (Return ddl, tr2) =>
              if show_only argv then (Return tt, (tr2 ++ [Print ddl])%list)
              else (if callproc_ok w (table_name a) ddl then Return tt
                    else Raise (DatabaseError "callproc"),
                    (tr2 ++ [CallProc (table_name a) ddl])%list)
          | (Raise e, tr2) => (Raise e, tr2)
          | (SystemExit c, tr2) => (SystemExit c, tr2)
          end
        else (Raise (DatabaseError "connect"), tr1)).
Proof.
  unfold run.
  destruct (expand_args_outcome w argv []) as [(a & He & Hg & Ht)|[(m & He)|(e & He & Hc)]].
  - right; right. exists a. repeat split; try assumption.
    exact (main_after_expand w argv a [] He).
  - left. exists m. unfold main. unfold bind at 1. now rewrite He.
  - right; left. exists e. split; [|exact Hc].
    unfold main. unfold bind at 1. now rewrite He.
Qed.

(** C2. When the descriptor parses and its name set differs from the
    authoritative set, [gen_ddl] does not return: after the two queries and
    the opening of the descriptor it prints the (non-empty) symmetric
    difference and raises SystemExit.  The run then ends without having
    printed any DDL or called the stored procedure, and with the arguments
    expanded and the connection made its trace is exactly those steps. *)
Theorem discrepancy_aborts_the_run (w : world) (argv : cli)
    (char db : gset string) (lines : list string) (st : locals) :
  char_semantics_columns w = Some char ->
  all_db_columns w = Some db ->
  read_lines w (fmt_path argv) = Some lines ->
  for_lines char init_locals lines = inr st ->
  all_columns st <> db ->
  symmetric_difference db (all_columns st) <> ∅ /\
  (forall a tr, given a = argv ->
     gen_ddl w a tr =
     (SystemExit None,
      (tr ++ [QueryCharSemantics; QueryAllColumns; OpenFile (fmt_path argv);
              PrintDiscrepancies (symmetric_difference db (all_columns st))])%list)) /\
  (run w argv).1 <> Return tt /\
  never_applies (run w argv).2 /\
  never_prints_ddl (run w argv).2 /\
  (forall a, expand_args w argv [] = (Return a, []) ->
     connect_ok w (username a) (password a) (dbname a) = true ->
     run w argv =
     (SystemExit None,
      [Connect (username a) (password a) (dbname a);
       QueryCharSemantics; QueryAllColumns; OpenFile (fmt_path argv);
       PrintDiscrepancies (symmetric_difference db (all_columns st))])).
Proof.
  intros Hchar Hdb Hread Hloop Hne.
  assert (Hd : symmetric_difference db (all_columns st) <> ∅).
  { intros H. apply Hne. symmetry. now apply symmetric_difference_empty. }
  assert (Hgen : forall a tr, given a = argv ->
     gen_ddl w a tr =
     (SystemExit None,
      (tr ++ [QueryCharSemantics; QueryAllColumns; OpenFile (fmt_path argv);
              PrintDiscrepancies (symmetric_difference db (all_columns st))])%list)).
  { intros a tr Ha. rewrite gen_ddl_cases, Hchar, Hdb, Ha. cbv zeta.
    rewrite Hread, Hloop.
    destruct (decide _) as [H|_]; [contradiction|].
    now rewrite <- app_assoc. }
  split; [exact Hd|]. split; [exact Hgen|].
  assert (Hquiet : (run w argv).1 <> Return tt /\ never_applies (run w argv).2
                   /\ never_prints_ddl (run w argv).2).
  { destruct (run_outcome w argv) as [(m & Hr)|[(e & Hr & _)|(a & _ & Hg & _ & Hr)]];
      rewrite Hr; cbv zeta.
    - quiet_trace.
    - quiet_trace.
    - destruct (connect_ok w _ _ _); [rewrite (Hgen a _ Hg)|]; quiet_trace. }
  destruct Hquiet as (H1 & H2 & H3). repeat (split; [assumption|]).
  intros a He Hconn. unfold run.
  rewrite (main_after_expand _ _ _ _ He). cbv zeta. rewrite Hconn.
  destruct (expand_args_given _ _ _ _ _ He) as (Hg & _).
  now rewrite (Hgen a _ Hg).
Qed.

Lemma discrepancy_aborts_the_run_witness :
  for_lines ∅ init_locals spec_example = inr spec_example_locals /\
  all_columns spec_example_locals <> name_addr_phone /\
  symmetric_difference name_addr_phone name_addr = {["PHONE"]} /\
  run (sample_world (Some spec_example) ∅ name_addr_phone) (sample_cli "abc" false) =
    (SystemExit None,
     [Connect "cope" "secret" "orcl"; QueryCharSemantics; QueryAllColumns;
      OpenFile "member.fmt"; PrintDiscrepancies {["PHONE"]}]) /\
  never_applies
    (run (sample_world (Some spec_example) ∅ name_addr_phone) (sample_cli "abc" false)).2.
Proof.
  assert (Hloop : for_lines ∅ init_locals spec_example = inr spec_example_locals)
    by (vm_compute; reflexivity).
  assert (Hne : all_columns spec_example_locals <> name_addr_phone).
  { intros H. assert (Hin : "PHONE" ∈ all_columns spec_example_locals).
    { rewrite H. unfold name_addr_phone. apply elem_of_union. right.
      now apply elem_of_singleton. }
    revert Hin. simpl. unfold name_addr.
    rewrite elem_of_union, !elem_of_singleton. intros [Hin|Hin]; discriminate Hin. }
  pose proof (discrepancy_aborts_the_run
                (sample_world (Some spec_example) ∅ name_addr_phone)
                (sample_cli "abc" false) ∅ name_addr_phone spec_example
                spec_example_locals eq_refl eq_refl eq_refl Hloop Hne)
    as (_ & _ & _ & Hnever & _ & _).
  split; [exact Hloop|]. split; [exact Hne|].
  split; [vm_compute; reflexivity|].
  split; [vm_compute; reflexivity|exact Hnever].
Defined.

(** C8 (as amended). A missing descriptor is only met after schema access:
    the run never ends normally and never prints or applies DDL, the
    descriptor is never opened before both queries have been issued, and
    with the arguments expanded, the connection made and both queries
    answered, the run issues the two queries, fails to open the descriptor,
    logs that error and exits. *)
Theorem missing_descriptor_found_after_schema_access (w : world) (argv : cli) :
  read_lines w (fmt_path argv) = None ->
  (run w argv).1 <> Return tt /\
  never_applies (run w argv).2 /\
  never_prints_ddl (run w argv).2 /\
  (OpenFile (fmt_path argv) ∈ (run w argv).2 ->
   exists tr0,
     (run w argv).2 =
     (tr0 ++ [QueryCharSemantics; QueryAllColumns; OpenFile (fmt_path argv);
              LogError (OfExn (OSError (fmt_path argv)))])%list) /\
  (forall a char db,
     expand_args w argv [] = (Return a, []) ->
     connect_ok w (username a) (password a) (dbname a) = true ->
     char_semantics_columns w = Some char ->
     all_db_columns w = Some db ->
     run w argv =
     (SystemExit None,
      [Connect (username a) (password a) (dbname a);
       QueryCharSemantics; QueryAllColumns; OpenFile (fmt_path argv);
       LogError (OfExn (OSError (fmt_path argv)))])).
Proof.
  intros Hread.
  assert (Hgen : forall a tr, given a = argv ->
    gen_ddl w a tr =
    match char_semantics_columns w with
    | None => (Raise (DatabaseError "execute"), (tr ++ [QueryCharSemantics])%list)
    | Some _ =>
        match all_db_columns w with
        | None => (Raise (DatabaseError "execute"),
                   (tr ++ [QueryCharSemantics; QueryAllColumns])%list)
        | Some _ =>
            (SystemExit None,
             (tr ++ [QueryCharSemantics; QueryAllColumns; OpenFile (fmt_path argv);
                     LogError (OfExn (OSError (fmt_path argv)))])%list)
        end
    end).
  { intros a tr Ha. rewrite gen_ddl_cases, Ha.
    destruct (char_semantics_columns w); [|reflexivity].
    destruct (all_db_columns w); [|reflexivity].
    cbv zeta. rewrite Hread. now rewrite <- app_assoc. }
  assert (Hmain : ((run w argv).1 <> Return tt /\ never_applies (run w argv).2
                   /\ never_prints_ddl (run w argv).2) /\
                  (OpenFile (fmt_path argv) ∈ (run w argv).2 ->
                   exists tr0, (run w argv).2 =
                     (tr0 ++ [QueryCharSemantics; QueryAllColumns;
                              OpenFile (fmt_path argv);
                              LogError (OfExn (OSError (fmt_path argv)))])%list)).
  { destruct (run_outcome w argv) as [(m & Hr)|[(e & Hr & _)|(a & _ & Hg & _ & Hr)]];
      rewrite Hr; cbv zeta.
    - split; [quiet_trace|simpl; absent].
    - split; [quiet_trace|simpl; absent].
    - destruct (connect_ok w _ _ _).
      + rewrite (Hgen a _ Hg).
        destruct (char_semantics_columns w); [destruct (all_db_columns w)|].
        * split; [quiet_trace|].
          intros _. simpl. now exists [Connect (username a) (password a) (dbname a)].
        * split; [quiet_trace|simpl; absent].
        * split; [quiet_trace|simpl; absent].
      + split; [quiet_trace|simpl; absent]. }
  destruct Hmain as ((H1 & H2 & H3) & H4). repeat (split; [assumption|]).
  intros a char db He Hconn Hchar Hdb. unfold run.
  rewrite (main_after_expand _ _ _ _ He). cbv zeta. rewrite Hconn.
  destruct (expand_args_given _ _ _ _ _ He) as (Hg & _).
  now rewrite (Hgen a _ Hg), Hchar, Hdb.
Qed.

Lemma missing_descriptor_found_after_schema_access_witness :
  run (sample_world None ∅ name_addr) (sample_cli "abc" false) =
  (SystemExit None,
   [Connect "cope" "secret" "orcl"; QueryCharSemantics; QueryAllColumns;
    OpenFile "member.fmt"; LogError (OfExn (OSError "member.fmt"))]).
Proof.
  pose proof (missing_descriptor_found_after_schema_access
                (sample_world None ∅ name_addr) (sample_cli "abc" false) eq_refl)
    as (_ & _ & _ & _ & Hrun).
  apply (Hrun (sample_args "abc" false) ∅ name_addr); vm_compute; reflexivity.
Defined.

(** C8 as stated fails: with the descriptor missing, both schema queries
    are in the trace of the run. *)
Lemma queries_precede_the_missing_descriptor :
  read_lines (sample_world None ∅ name_addr) (fmt_path (sample_cli "abc" false)) = None /\
  QueryCharSemantics ∈ (run (sample_world None ∅ name_addr) (sample_cli "abc" false)).2 /\
  QueryAllColumns ∈ (run (sample_world None ∅ name_addr) (sample_cli "abc" false)).2.
Proof.
  split; [reflexivity|].
  assert (Hrun : (run (sample_world None ∅ name_addr) (sample_cli "abc" false)).2 =
                 [Connect "cope" "secret" "orcl"; QueryCharSemantics; QueryAllColumns;
                  OpenFile "member.fmt"; LogError (OfExn (OSError "member.fmt"))])
    by (vm_compute; reflexivity).
  rewrite Hrun. split.
  - apply elem_of_cons. right. apply elem_of_cons. now left.
  - do 2 (apply elem_of_cons; right). apply elem_of_cons. now left.
Qed.

Lemma failed_runs_are_classified (w : world) (argv : cli) :
  (run w argv).1 <> Return tt ->
  ((run w argv).1 = SystemExit None /\
   exit_status (run w argv).1 = 0 /\
   never_applies (run w argv).2 /\
   never_prints_ddl (run w argv).2 /\
   exists tr0,
     (exists m, (run w argv).2 = (tr0 ++ [LogError m])%list) \/
     (exists d, d <> ∅ /\ (run w argv).2 = (tr0 ++ [PrintDiscrepancies d])%list))
  \/
  (exists e,
     (run w argv).1 = Raise e /\
     exit_status (run w argv).1 = 1 /\
     (read_config w (dbconfig_path argv) = inl e \/ exists what, e = DatabaseError what)).
Proof.
  destruct (run_outcome w argv) as [(m & Hr)|[(e & Hr & Hc)|(a & _ & Hg & _ & Hr)]];
    rewrite Hr; cbv zeta.
  - intros _. left. simpl. repeat split; [intros ? ?; absent|intros ?; absent|].
    exists []. left. now exists m.
  - intros _. right. exists e. simpl. auto.
  - destruct (connect_ok w _ _ _); [|intros _; right; simpl; eauto 6].
    rewrite gen_ddl_cases.
    destruct (char_semantics_columns w) as [char|]; [|intros _; right; simpl; eauto 6].
    destruct (all_db_columns w) as [db|]; [|intros _; right; simpl; eauto 6].
    cbv zeta.
    destruct (read_lines w _) as [lines|].
    + destruct (for_lines char init_locals lines) as [e|st].
      * intros _. left. cbn [fst snd].
        repeat split; [intros ? ?; absent|intros ?; absent|].
        eexists. left. eexists. reflexivity.
      * destruct (decide _) as [Hd|Hd].
        -- destruct (show_only argv); [intros H; now contradict H|].
           destruct (callproc_ok w _ _); [intros H; now contradict H|].
           intros _. right. simpl. eauto 6.
        -- intros _. left. cbn [fst snd].
           repeat split; [intros ? ?; absent|intros ?; absent|].
           eexists. right. eexists. split; [exact Hd|reflexivity].
    + intros _. left. cbn [fst snd].
      repeat split; [intros ? ?; absent|intros ?; absent|].
      eexists. left. eexists. reflexivity.
Qed.

Lemma run_stops_in_expand_args w argv tr :
  (forall c, expand_args w argv [] = (SystemExit c, tr) ->
             run w argv = (SystemExit c, tr)) /\
  (forall e, expand_args w argv [] = (Raise e, tr) -> run w argv = (Raise e, tr)).
Proof.
  split; intros x He; unfold run, main, bind; now rewrite He.
Qed.

Lemma expand_args_raises w argv tr e :
  isfile w (dbconfig_path argv) = true ->
  read_config w (dbconfig_path argv) = inl e ->
  expand_args w argv tr = (Raise e, tr).
Proof.
  intros Hfile. rewrite expand_args_cases, Hfile. unfold read_config. cbv zeta.
  destruct (config_file w (dbconfig_path argv)) as [e'|[section|]];
    [now intros [= ->]| |discriminate].
  rewrite get_items_cases.
  destruct (section !! "username") as [[e'|u]|]; [now intros [= ->]| |discriminate].
  destruct (section !! "password") as [[e'|p]|]; [now intros [= ->]| |discriminate].
  destruct (section !! "dbname") as [[e'|d]|]; [now intros [= ->]| |discriminate].
  destruct (section !! "directory_name") as [[e'|dir]|];
    [now intros [= ->]|discriminate|discriminate].
Qed.

Lemma expand_args_missing w argv tr section item :
  isfile w (dbconfig_path argv) = true ->
  config_file w (dbconfig_path argv) = inr (Some section) ->
  get_items section config_items = Missing item ->
  expand_args w argv tr =
    (SystemExit None,
     (tr ++ [LogError (Text ("Missing parameter " ++ item ++ " "))])%list).
Proof.
  intros Hfile Hcfg.
  rewrite expand_args_cases, Hfile, Hcfg, get_items_cases. cbv zeta.
  destruct (section !! "username") as [[e|u]|]; [discriminate| |now intros [= <-]].
  destruct (section !! "password") as [[e|p]|]; [discriminate| |now intros [= <-]].
  destruct (section !! "dbname") as [[e|d]|]; [discriminate| |now intros [= <-]].
  destruct (section !! "directory_name") as [[e|dir]|];
    [discriminate|discriminate|now intros [= <-]].
Qed.

(** C4 (as amended). Every failure condition ends the run with a message.
    A configuration error the script detects (no configuration file, no
    [database] section, an item missing), a descriptor that cannot be
    opened, a line that does not parse and a reconciliation discrepancy
    are each logged or printed as the last thing the run does, which then
    ends through [sys.exit()] or [exit()] called without an argument: the
    termination status is 0, and no DDL was printed or applied.  An
    exception raised by a collaborator (configparser, the connection, one
    of the two queries, the stored procedure) is left uncaught: the script
    logs nothing and the termination status is 1.  Conversely, a run that
    does not end normally ended in one of these two ways. *)
Theorem failures_end_with_a_message (w : world) (argv : cli) :
  let cfg := dbconfig_path argv in
  let fmt := fmt_path argv in
  (isfile w cfg = false ->
   ends_with w argv (SystemExit None) [LogError (Text ("No such file: " ++ cfg))] 0) /\
  (isfile w cfg = true -> config_file w cfg = inr None ->
   ends_with w argv (SystemExit None) [LogError (Text "No database found")] 0) /\
  (forall section item,
     isfile w cfg = true -> config_file w cfg = inr (Some section) ->
     get_items section config_items = Missing item ->
     ends_with w argv (SystemExit None)
       [LogError (Text ("Missing parameter " ++ item ++ " "))] 0) /\
  (forall e,
     isfile w cfg = true -> read_config w cfg = inl e ->
     ends_with w argv (Raise e) [] 1) /\
  (forall a,
     expand_args w argv [] = (Return a, []) ->
     let c := Connect (username a) (password a) (dbname a) in
     (connect_ok w (username a) (password a) (dbname a) = false ->
      ends_with w argv (Raise (DatabaseError "connect")) [c] 1) /\
     (connect_ok w (username a) (password a) (dbname a) = true ->
      (char_semantics_columns w = None ->
       ends_with w argv (Raise (DatabaseError "execute")) [c; QueryCharSemantics] 1) /\
      (forall char, char_semantics_columns w = Some char ->
       (all_db_columns w = None ->
        ends_with w argv (Raise (DatabaseError "execute"))
          [c; QueryCharSemantics; QueryAllColumns] 1) /\
       (forall db, all_db_columns w = Some db ->
        (read_lines w fmt = None ->
         ends_with w argv (SystemExit None)
           [c; QueryCharSemantics; QueryAllColumns; OpenFile fmt;
            LogError (OfExn (OSError fmt))] 0) /\
        (forall lines, read_lines w fmt = Some lines ->
         (forall e, for_lines char init_locals lines = inl e ->
          ends_with w argv (SystemExit None)
            [c; QueryCharSemantics; QueryAllColumns; OpenFile fmt;
             LogError (OfExn e)] 0) /\
         (forall st, for_lines char init_locals lines = inr st ->
          (all_columns st <> db ->
           symmetric_difference db (all_columns st) <> ∅ /\
           ends_with w argv (SystemExit None)
             [c; QueryCharSemantics; QueryAllColumns; OpenFile fmt;
              PrintDiscrepancies (symmetric_difference db (all_columns st))] 0) /\
          (all_columns st = db ->
           (show_only argv = true ->
            ends_with w argv (Return tt)
              [c; QueryCharSemantics; QueryAllColumns; OpenFile fmt;
               Print (ddl_of a st)] 0) /\
           (show_only argv = false ->
            (callproc_ok w (table_name a) (ddl_of a st) = true ->
             ends_with w argv (Return tt)
               [c; QueryCharSemantics; QueryAllColumns; OpenFile fmt;
                CallProc (table_name a) (ddl_of a st)] 0) /\
            (callproc_ok w (table_name a) (ddl_of a st) = false ->
             ends_with w argv (Raise (DatabaseError "callproc"))
               [c; QueryCharSemantics; QueryAllColumns; OpenFile fmt;
                CallProc (table_name a) (ddl_of a st)] 1))))))))) /\
  ((run w argv).1 <> Return tt ->
   ((run w argv).1 = SystemExit None /\
    exit_status (run w argv).1 = 0 /\
    never_applies (run w argv).2 /\
    never_prints_ddl (run w argv).2 /\
    exists tr0,
      (exists m, (run w argv).2 = (tr0 ++ [LogError m])%list) \/
      (exists d, d <> ∅ /\ (run w argv).2 = (tr0 ++ [PrintDiscrepancies d])%list))
   \/
   (exists e,
      (run w argv).1 = Raise e /\
      exit_status (run w argv).1 = 1 /\
      (read_config w cfg = inl e \/ exists what, e = DatabaseError what))).
Proof.
  intros cfg fmt. subst cfg fmt.
  assert (Hends : forall r tr, run w argv = (r, tr) ->
                    ends_with w argv r tr (exit_status r)).
  { intros r tr Hr. unfold ends_with. now rewrite Hr. }
  destruct (run_stops_in_expand_args w argv
              [LogError (Text ("No such file: " ++ dbconfig_path argv))]) as [Hx1 _].
  destruct (run_stops_in_expand_args w argv [LogError (Text "No database found")])
    as [Hx2 _].
  destruct (run_stops_in_expand_args w argv []) as [_ Hx4].
  split; [|split; [|split; [|split; [|split]]]].
  - intros Hfile. apply (Hends (SystemExit None)), Hx1.
    now rewrite expand_args_cases, Hfile.
  - intros Hfile Hcfg. apply (Hends (SystemExit None)), Hx2.
    now rewrite expand_args_cases, Hfile, Hcfg.
  - intros section item Hfile Hcfg Hitem.
    destruct (run_stops_in_expand_args w argv
                [LogError (Text ("Missing parameter " ++ item ++ " "))]) as [Hx3 _].
    apply (Hends (SystemExit None)), Hx3.
    exact (expand_args_missing w argv [] section item Hfile Hcfg Hitem).
  - intros e Hfile Hraise. apply (Hends (Raise e)), Hx4.
    exact (expand_args_raises w argv [] e Hfile Hraise).
  - intros a He c. subst c.
    destruct (expand_args_given _ _ _ _ _ He) as (Hg & _).
    pose proof (main_after_expand w argv a [] He) as Hmain.
    fold (run w argv) in Hmain. cbv zeta in Hmain.
    rewrite gen_ddl_cases, Hg in Hmain. cbv zeta in Hmain.
    split.
    { intros Hconn. rewrite Hconn in Hmain. exact (Hends _ _ Hmain). }
    intros Hconn. rewrite Hconn in Hmain. split.
    { intros Hchar. rewrite Hchar in Hmain. exact (Hends _ _ Hmain). }
    intros char Hchar. rewrite Hchar in Hmain. split.
    { intros Hdb. rewrite Hdb in Hmain. exact (Hends _ _ Hmain). }
    intros db Hdb. rewrite Hdb in Hmain. split.
    { intros Hread. rewrite Hread in Hmain. exact (Hends _ _ Hmain). }
    intros lines Hread. rewrite Hread in Hmain. split.
    { intros e Hloop. rewrite Hloop in Hmain. exact (Hends _ _ Hmain). }
    intros st Hloop. rewrite Hloop in Hmain. split.
    { intros Hne.
      assert (Hd : symmetric_difference db (all_columns st) <> ∅).
      { intros H. apply Hne. symmetry. now apply symmetric_difference_empty. }
      split; [exact Hd|].
      destruct (decide _) as [H|_] in Hmain; [contradiction|].
      exact (Hends _ _ Hmain). }
    intros Heq.
    destruct (decide _) as [_|H] in Hmain;
      [|exfalso; apply H, symmetric_difference_empty; now symmetry].
    split.
    { intros Hshow. rewrite Hshow in Hmain. exact (Hends _ _ Hmain). }
    intros Hshow. rewrite Hshow in Hmain. split.
    { intros Hproc. rewrite Hproc in Hmain. exact (Hends _ _ Hmain). }
    intros Hproc. rewrite Hproc in Hmain. exact (Hends _ _ Hmain).
  - exact (failed_runs_are_classified w argv).
Qed.

Lemma failures_end_with_a_message_witness :
  ends_with (sample_world (Some ["NAME,x"]) ∅ name_addr) (sample_cli "abc" false)
    (SystemExit None)
    [Connect "cope" "secret" "orcl"; QueryCharSemantics; QueryAllColumns;
     OpenFile "member.fmt"; LogError (OfExn (ValueError "x"))] 0 /\
  ends_with no_config_world (sample_cli "abc" false)
    (SystemExit None) [LogError (Text "No such file: db.cfg")] 0 /\
  ends_with interpolation_error_world (sample_cli "abc" false)
    (Raise (ConfigError "password")) [] 1 /\
  ends_with failing_callproc_world (sample_cli "abc" false)
    (Raise (DatabaseError "callproc"))
    [Connect "cope" "secret" "orcl"; QueryCharSemantics; QueryAllColumns;
     OpenFile "member.fmt";
     CallProc "NEW_MEMBER_abc_EXT" (ddl_of (sample_args "abc" false) spec_example_locals)] 1.
Proof.
  split; [|split; [|split]].
  - destruct (failures_end_with_a_message
                (sample_world (Some ["NAME,x"]) ∅ name_addr) (sample_cli "abc" false))
      as (_ & _ & _ & _ & Hrun & _).
    destruct (Hrun (sample_args "abc" false) eq_refl) as (_ & Hconn).
    destruct (Hconn eq_refl) as (_ & Hchar).
    destruct (Hchar ∅ eq_refl) as (_ & Hdb).
    destruct (Hdb name_addr eq_refl) as (_ & Hread).
    destruct (Hread ["NAME,x"] eq_refl) as (Hloop & _).
    exact (Hloop (ValueError "x") eq_refl).
  - destruct (failures_end_with_a_message no_config_world (sample_cli "abc" false))
      as (Hfile & _).
    exact (Hfile eq_refl).
  - destruct (failures_end_with_a_message interpolation_error_world
                (sample_cli "abc" false)) as (_ & _ & _ & Hraise & _).
    exact (Hraise (ConfigError "password") eq_refl eq_refl).
  - destruct (failures_end_with_a_message failing_callproc_world
                (sample_cli "abc" false)) as (_ & _ & _ & _ & Hrun & _).
    destruct (Hrun (sample_args "abc" false) eq_refl) as (_ & Hconn).
    destruct (Hconn eq_refl) as (_ & Hchar).
    destruct (Hchar ∅ eq_refl) as (_ & Hdb).
    destruct (Hdb name_addr eq_refl) as (_ & Hread).
    destruct (Hread spec_example eq_refl) as (_ & Hloop).
    destruct (Hloop spec_example_locals ltac:(vm_compute; reflexivity)) as (_ & Hsame).
    destruct (Hsame eq_refl) as (_ & Hshow).
    destruct (Hshow eq_refl) as (_ & Hproc).
    exact (Hproc eq_refl).
Defined.

(** C4 as stated fails: a configuration error, a parse error and a
    reconciliation discrepancy each end the run with termination status 0. *)
Lemma handled_failures_exit_with_status_zero :
  (run no_config_world (sample_cli "abc" false) =
     (SystemExit None, [LogError (Text "No such file: db.cfg")]) /\
   exit_status (run no_config_world (sample_cli "abc" false)).1 = 0) /\
  ((run (sample_world (Some ["NAME,x"]) ∅ name_addr) (sample_cli "abc" false)).1
     = SystemExit None /\
   exit_status
     (run (sample_world (Some ["NAME,x"]) ∅ name_addr) (sample_cli "abc" false)).1 = 0) /\
  ((run (sample_world (Some spec_example) ∅ name_addr_phone) (sample_cli "abc" false)).1
     = SystemExit None /\
   exit_status
     (run (sample_world (Some spec_example) ∅ name_addr_phone) (sample_cli "abc" false)).1
     = 0).
Proof.
  repeat split; vm_compute; reflexivity.
Qed.

(** C3: the table name is built from the acronym as given.  For the
    acronym abc the name handed to the template and to the stored procedure
    is NEW_MEMBER_abc_EXT, not NEW_MEMBER_ABC_EXT; [acronym_upper] is computed
    in [gen_ddl] and never used. *)
Theorem table_name_keeps_the_case_given :
  expand_args (sample_world (Some spec_example) ∅ name_addr) (sample_cli "abc" false) []
    = (Return (sample_args "abc" false), []) /\
  table_name (sample_args "abc" false) = "NEW_MEMBER_abc_EXT" /\
  table_name (sample_args "abc" false) <> "NEW_MEMBER_" ++ PyStr.upper "abc" ++ "_EXT" /\
  exists ddl,
    run (sample_world (Some spec_example) ∅ name_addr) (sample_cli "abc" false) =
      (Return tt,
       [Connect "cope" "secret" "orcl"; QueryCharSemantics; QueryAllColumns;
        OpenFile "member.fmt"; CallProc "NEW_MEMBER_abc_EXT" ddl]) /\
    String.prefix ("CREATE TABLE NEW_MEMBER_abc_EXT" ++ PyStr.nl) ddl = true.
Proof.
  split; [vm_compute; reflexivity|].
  split; [reflexivity|].
  split; [vm_compute; discriminate|].
  eexists. split; vm_compute; reflexivity.
Qed.

(** The table name, whatever the acronym: the acronym is copied as it is. *)
Lemma table_name_verbatim w argv tr a tr' :
  expand_args w argv tr = (Return a, tr') ->
  table_name a = "NEW_MEMBER_" ++ affiliate_acronym argv ++ "_EXT".
Proof.
  intros He. now destruct (expand_args_given _ _ _ _ _ He) as (_ & _ & Ht).
Qed.



(** * Further properties of the code *)

(** ** Integers as text *)

Lemma space_is_no_digit c :
  PyStr.is_space c = true ->
  PyStr.is_digit c = false /\ Ascii.eqb c "_" = false /\
  Ascii.eqb c "-" = false /\ Ascii.eqb c "+" = false.
Proof.
  destruct c as [[] [] [] [] [] [] [] []]; try discriminate; now repeat split.
Qed.

Lemma digits_tail_spaces acc ws :
  PyStr.all_space ws = true -> PyStr.digits_tail acc ws = Some acc.
Proof.
  destruct ws as [|c ws]; [reflexivity|].
  intros Hws. pose proof Hws as Hc. simpl in Hc.
  apply andb_prop in Hc as [Hc _].
  destruct (space_is_no_digit c Hc) as (Hd & Hu & _).
  cbn [PyStr.digits_tail]. now rewrite Hd, Hu, Hws.
Qed.

Lemma digits_tail_acc d ws : forall acc,
  PyStr.all_space ws = true ->
  PyStr.digits_tail (Z.pos acc) (NilEmpty.string_of_uint d ++ ws)
  = Some (Z.pos (Pos.of_uint_acc d acc)).
Proof.
  induction d as [|d IH|d IH|d IH|d IH|d IH|d IH|d IH|d IH|d IH|d IH];
    intros acc Hws; [now apply digits_tail_spaces|..];
    cbn [NilEmpty.string_of_uint Pos.of_uint_acc];
    match goal with
    | |- context [String ?c ?s ++ ?t] =>
        change (String c s ++ t) with (String c (s ++ t))
    end;
    cbn [PyStr.digits_tail];
    match goal with
    | |- context [PyStr.is_digit ?c] =>
        change (PyStr.is_digit c) with true; cbv iota
    end;
    match goal with
    | |- context [PyStr.digit_val ?c] =>
        let v := eval vm_compute in (PyStr.digit_val c) in
        change (PyStr.digit_val c) with v
    end;
    rewrite <- (IH _ Hws); f_equal; lia.
Qed.

Lemma digits_tail_zero d ws :
  PyStr.all_space ws = true ->
  PyStr.digits_tail 0 (NilEmpty.string_of_uint d ++ ws)
  = Some (Z.of_N (Pos.of_uint d)).
Proof.
  intros Hws.
  induction d as [|d IH|d IH|d IH|d IH|d IH|d IH|d IH|d IH|d IH|d IH];
    [now apply digits_tail_spaces|exact IH|..];
    cbn [NilEmpty.string_of_uint Pos.of_uint];
    match goal with
    | |- context [String ?c ?s ++ ?t] =>
        change (String c s ++ t) with (String c (s ++ t))
    end;
    cbn [PyStr.digits_tail];
    match goal with
    | |- context [PyStr.is_digit ?c] =>
        change (PyStr.is_digit c) with true; cbv iota
    end;
    apply (digits_tail_acc d ws _ Hws).
Qed.

Lemma digits_of_uint d ws :
  d <> Decimal.Nil ->
  PyStr.all_space ws = true ->
  PyStr.digits (NilEmpty.string_of_uint d ++ ws) = Some (Z.of_N (Pos.of_uint d)).
Proof.
  intros Hd Hws. rewrite <- (digits_tail_zero d ws Hws).
  destruct d; [contradiction|reflexivity..].
Qed.

Lemma string_of_uint_nonnil d :
  d <> Decimal.Nil -> NilZero.string_of_uint d = NilEmpty.string_of_uint d.
Proof.
  destruct d; [contradiction|reflexivity..].
Qed.

(** The text of an integer starts with a sign or a digit, never with white
    space, and [int] reads it as the digits that follow the sign. *)
Lemma int_unpadded n ws :
  PyStr.all_space ws = true ->
  PyStr.lstrip (PyStr.str n ++ ws) = PyStr.str n ++ ws /\
  PyStr.int (PyStr.str n ++ ws) = Some n.
Proof.
  intros Hws. unfold PyStr.str. destruct n as [|p|p].
  - split; [reflexivity|].
    change (PyStr.int ("0" ++ ws)) with (PyStr.digits_tail 0 ws).
    now apply digits_tail_spaces.
  - pose proof (Unsigned.to_uint_nonnil p) as Hn.
    simpl Z.to_int. unfold NilZero.string_of_int.
    rewrite (string_of_uint_nonnil _ Hn).
    assert (Hint : PyStr.int (NilEmpty.string_of_uint (Pos.to_uint p) ++ ws)
                   = PyStr.digits (NilEmpty.string_of_uint (Pos.to_uint p) ++ ws)
                   /\ PyStr.lstrip (NilEmpty.string_of_uint (Pos.to_uint p) ++ ws)
                      = NilEmpty.string_of_uint (Pos.to_uint p) ++ ws).
    { destruct (Pos.to_uint p); [contradiction|split; reflexivity..]. }
    destruct Hint as [Hint Hstrip]. split; [exact Hstrip|].
    rewrite Hint, (digits_of_uint _ _ Hn Hws), Unsigned.of_to. reflexivity.
  - pose proof (Unsigned.to_uint_nonnil p) as Hn.
    simpl Z.to_int. unfold NilZero.string_of_int.
    rewrite (string_of_uint_nonnil _ Hn). split; [reflexivity|].
    change (PyStr.int (String "-" (NilEmpty.string_of_uint (Pos.to_uint p)) ++ ws))
      with (Z.opp <$> PyStr.digits (NilEmpty.string_of_uint (Pos.to_uint p) ++ ws)).
    rewrite (digits_of_uint _ _ Hn Hws), Unsigned.of_to. reflexivity.
Qed.

(** ** Fields of a line *)

Lemma append_cons c s t : String c s ++ t = String c (s ++ t).
Proof. reflexivity. Qed.

Lemma split_field p0 r :
  comma_free p0 = true ->
  PyStr.split "," (p0 ++ "," ++ r) = p0 :: PyStr.split "," r.
Proof.
  induction p0 as [|c p0 IH]; [reflexivity|].
  simpl comma_free. intros [Hc Hp]%andb_prop.
  rewrite append_cons. cbn [PyStr.split].
  apply negb_true_iff in Hc. rewrite Hc, (IH Hp). reflexivity.
Qed.

Lemma split_whole p : comma_free p = true -> PyStr.split "," p = [p].
Proof.
  induction p as [|c p IH]; [reflexivity|].
  simpl comma_free. intros [Hc Hp]%andb_prop.
  cbn [PyStr.split]. apply negb_true_iff in Hc. rewrite Hc, (IH Hp). reflexivity.
Qed.

Lemma comma_free_app a b :
  comma_free (a ++ b) = comma_free a && comma_free b.
Proof.
  induction a as [|c a IH]; [reflexivity|].
  rewrite append_cons. simpl. rewrite IH. apply andb_assoc.
Qed.

Lemma comma_free_spaces ws : PyStr.all_space ws = true -> comma_free ws = true.
Proof.
  induction ws as [|c ws IH]; [reflexivity|].
  simpl. intros [Hc Hw]%andb_prop. rewrite (IH Hw), andb_true_r.
  destruct c as [[] [] [] [] [] [] [] []]; try discriminate Hc; reflexivity.
Qed.

Lemma comma_free_uint d : comma_free (NilEmpty.string_of_uint d) = true.
Proof.
  induction d; simpl; auto.
Qed.

Lemma comma_free_str n : comma_free (PyStr.str n) = true.
Proof.
  unfold PyStr.str, NilZero.string_of_int, NilZero.string_of_uint.
  destruct (Z.to_int n) as [d|d]; destruct d; simpl; auto using comma_free_uint.
Qed.

Lemma parse_line_two_fields name field :
  comma_free name = true -> comma_free field = true ->
  parse_line (name ++ "," ++ field) =
  match PyStr.int field with
  | Some n => inr (PyStr.upper name, n)
  | None => inl (ValueError field)
  end.
Proof.
  intros Hn Hf. unfold parse_line.
  rewrite (split_field _ _ Hn), (split_whole _ Hf). reflexivity.
Qed.

(** X2. Only the first two comma-separated fields of a line count: whatever
    follows a second comma is ignored, the name is the first field in upper
    case (white space included), and the line raises ValueError exactly when
    the second field is not an integer. *)
Theorem fields_beyond_the_second_are_ignored (name field junk : string) :
  comma_free name = true ->
  comma_free field = true ->
  parse_line (name ++ "," ++ field ++ "," ++ junk)
    = parse_line (name ++ "," ++ field) /\
  parse_line (name ++ "," ++ field) =
    match PyStr.int field with
    | Some n => inr (PyStr.upper name, n)
    | None => inl (ValueError field)
    end.
Proof.
  intros Hn Hf. split; [|exact (parse_line_two_fields _ _ Hn Hf)].
  rewrite (parse_line_two_fields _ _ Hn Hf). unfold parse_line.
  rewrite (split_field _ _ Hn), (split_field _ _ Hf). reflexivity.
Qed.

Lemma fields_beyond_the_second_are_ignored_witness :
  parse_line ("name" ++ "," ++ "10" ++ "," ++ "char,comment")
    = parse_line ("name" ++ "," ++ "10") /\
  parse_line ("name" ++ "," ++ "10") = inr ("NAME", 10).
Proof.
  apply (fields_beyond_the_second_are_ignored "name" "10" "char,comment");
    reflexivity.
Defined.

Lemma parse_written_line name trail n :
  comma_free name = true ->
  PyStr.all_space trail = true ->
  parse_line (name ++ "," ++ PyStr.str n ++ trail) = inr (PyStr.upper name, n).
Proof.
  intros Hn Ht. rewrite parse_line_two_fields; [|exact Hn|].
  - destruct (int_unpadded n trail Ht) as [_ Hi]. now rewrite Hi.
  - now rewrite comma_free_app, comma_free_str, (comma_free_spaces _ Ht).
Qed.

Lemma loop_body_written_line char st name trail n :
  comma_free name = true ->
  PyStr.all_space trail = true ->
  PyStr.upper name <> "EOR" ->
  loop_body char st (name ++ "," ++ PyStr.str n ++ trail) =
    Next {| all_columns := all_columns st ∪ {[PyStr.upper name]};
            offset := offset st + n;
            with_lengths :=
              (with_lengths st
                 ++ [fmt_length (PyStr.upper name) n
                       (char_used char (PyStr.upper name))])%list;
            with_offsets :=
              (with_offsets st
                 ++ [fmt_offset (PyStr.upper name) (offset st + 1) (offset st + n)])%list |}.
Proof.
  intros Hn Ht Hne. unfold loop_body.
  rewrite (parse_written_line _ _ n Hn Ht).
  apply String.eqb_neq in Hne. rewrite Hne, upper_idem. reflexivity.
Qed.

(** X3. A line written as a comma-free ASCII name, a comma, the decimal
    text of an integer and trailing white space that [int] skips is read
    back as that name in upper case and that integer; when the name is not
    EOR the loop adds the name to the set, appends
    [<NAME> VARCHAR2(<n> <unit>)] and the quoted name, a tab and
    [POSITION(<offset+1>:<offset+n>)], and advances the offset by the
    integer. *)
Theorem line_reads_back (char : gset string) (st : locals)
    (name trail : string) (n : Z) :
  PyStr.is_ascii name = true ->
  comma_free name = true ->
  PyStr.all_space trail = true ->
  PyStr.upper name <> "EOR" ->
  parse_line (name ++ "," ++ PyStr.str n ++ trail) = inr (PyStr.upper name, n) /\
  loop_body char st (name ++ "," ++ PyStr.str n ++ trail) =
    Next {| all_columns := all_columns st ∪ {[PyStr.upper name]};
            offset := offset st + n;
            with_lengths :=
              (with_lengths st
                 ++ [(PyStr.upper name ++ " VARCHAR2(" ++ PyStr.str n ++ " "
                        ++ (if decide (PyStr.upper name ∈ char) then "CHAR" else "BYTE")
                        ++ ")")%string])%list;
            with_offsets :=
              (with_offsets st
                 ++ [(PyStr.dquote ++ PyStr.upper name ++ PyStr.dquote ++ PyStr.tab
                        ++ "POSITION(" ++ PyStr.str (offset st + 1) ++ ":"
                        ++ PyStr.str (offset st + n) ++ ")")%string])%list |}.
Proof.
  intros _ Hn Ht Hne. split.
  - exact (parse_written_line name trail n Hn Ht).
  - exact (loop_body_written_line char st name trail n Hn Ht Hne).
Qed.

Lemma line_reads_back_witness :
  parse_line ("Zip Code" ++ "," ++ PyStr.str 9 ++ PyStr.nl) = inr ("ZIP CODE", 9) /\
  loop_body {["ZIP CODE"]} spec_example_locals ("Zip Code,9" ++ PyStr.nl) =
    Next {| all_columns := name_addr ∪ {["ZIP CODE"]};
            offset := 39;
            with_lengths :=
              ["NAME VARCHAR2(10 BYTE)"; "ADDR VARCHAR2(20 BYTE)";
               "ZIP CODE VARCHAR2(9 CHAR)"];
            with_offsets :=
              [PyStr.dquote ++ "NAME" ++ PyStr.dquote ++ PyStr.tab ++ "POSITION(1:10)";
               PyStr.dquote ++ "ADDR" ++ PyStr.dquote ++ PyStr.tab ++ "POSITION(11:30)";
               PyStr.dquote ++ "ZIP CODE" ++ PyStr.dquote ++ PyStr.tab
                 ++ "POSITION(31:39)"] |}.
Proof.
  destruct (line_reads_back {["ZIP CODE"]} spec_example_locals "Zip Code" PyStr.nl 9)
    as [Hparse Hbody]; [reflexivity|reflexivity|reflexivity|vm_compute; discriminate|].
  split; [exact Hparse|].
  change ("Zip Code,9" ++ PyStr.nl) with ("Zip Code" ++ "," ++ PyStr.str 9 ++ PyStr.nl).
  rewrite Hbody. vm_compute. reflexivity.
Defined.

(** X4. The loop does not check the sign of a length: a line with a zero or
    negative length (an ASCII name without comma, the text of the integer,
    white space that [int] skips) is accepted like any other, the offset
    does not advance, and the entry appended to [with_offsets] is the quoted
    name, a tab and [POSITION(<first>:<last>)] with last below first. *)
Theorem nonpositive_length_is_accepted (char : gset string) (st : locals)
    (name trail : string) (n : Z) :
  PyStr.is_ascii name = true ->
  comma_free name = true ->
  PyStr.all_space trail = true ->
  PyStr.upper name <> "EOR" ->
  n <= 0 ->
  exists st' first last,
    for_lines char st [name ++ "," ++ PyStr.str n ++ trail] = inr st' /\
    offset st' <= offset st /\
    first = offset st + 1 /\
    last = offset st + n /\
    last < first /\
    with_offsets st' =
      (with_offsets st
         ++ [(PyStr.dquote ++ PyStr.upper name ++ PyStr.dquote ++ PyStr.tab
                ++ "POSITION(" ++ PyStr.str first ++ ":" ++ PyStr.str last
                ++ ")")%string])%list.
Proof.
  intros _ Hn Ht Hne Hle.
  pose proof (loop_body_written_line char st name trail n Hn Ht Hne) as Hb.
  eexists. exists (offset st + 1), (offset st + n).
  cbn [for_lines]. rewrite Hb.
  split; [reflexivity|]. simpl. repeat split; lia.
Qed.

Lemma nonpositive_length_is_accepted_witness :
  for_lines ∅ spec_example_locals ["FILLER,-3" ++ PyStr.nl] =
    inr {| all_columns := name_addr ∪ {["FILLER"]};
           offset := 27;
           with_lengths :=
             ["NAME VARCHAR2(10 BYTE)"; "ADDR VARCHAR2(20 BYTE)";
              "FILLER VARCHAR2(-3 BYTE)"];
           with_offsets :=
             [PyStr.dquote ++ "NAME" ++ PyStr.dquote ++ PyStr.tab ++ "POSITION(1:10)";
              PyStr.dquote ++ "ADDR" ++ PyStr.dquote ++ PyStr.tab ++ "POSITION(11:30)";
              PyStr.dquote ++ "FILLER" ++ PyStr.dquote ++ PyStr.tab
                ++ "POSITION(31:27)"] |} /\
  exists st' first last,
    for_lines ∅ spec_example_locals ["FILLER" ++ "," ++ PyStr.str (-3) ++ PyStr.nl]
      = inr st' /\
    offset st' <= offset spec_example_locals /\
    first = offset spec_example_locals + 1 /\
    last = offset spec_example_locals + -3 /\
    last < first /\
    with_offsets st' =
      (with_offsets spec_example_locals
         ++ [(PyStr.dquote ++ PyStr.upper "FILLER" ++ PyStr.dquote ++ PyStr.tab
                ++ "POSITION(" ++ PyStr.str first ++ ":" ++ PyStr.str last
                ++ ")")%string])%list.
Proof.
  split; [vm_compute; reflexivity|].
  apply (nonpositive_length_is_accepted ∅ spec_example_locals "FILLER" PyStr.nl (-3));
    [reflexivity|reflexivity|reflexivity|vm_compute; discriminate|lia].
Defined.

(** ** What the loop keeps *)

Lemma scan_length_le lines : forall o cols,
  scan o lines = inr cols -> (length cols <= length lines)%nat.
Proof.
  induction lines as [|line rest IH]; intros o cols; simpl.
  - intros [= <-]. reflexivity.
  - destruct (parse_line line) as [e|[name len]]; [discriminate|].
    destruct (String.eqb name "EOR").
    + intros [= <-]. simpl. lia.
    + destruct (scan (o + len) rest) as [e|cols'] eqn:Hs; [discriminate|].
      intros [= <-]. simpl. pose proof (IH _ _ Hs). lia.
Qed.

(** X5. The loop keeps the two lists of rendered entries in step: started
    with lists of equal length it ends with lists of equal length, having
    added at most one entry per line to each. *)
Theorem fragments_stay_in_step (char : gset string) (st st' : locals)
    (lines : list string) :
  for_lines char st lines = inr st' ->
  length (with_lengths st) = length (with_offsets st) ->
  length (with_lengths st') = length (with_offsets st') /\
  (length (with_lengths st) <= length (with_lengths st')
   <= length (with_lengths st) + length lines)%nat.
Proof.
  rewrite for_lines_scan.
  destruct (scan (offset st) lines) as [e|cols] eqn:Hs; [discriminate|].
  intros [= <-] Heq. simpl.
  rewrite !length_app, !length_fmap.
  pose proof (scan_length_le _ _ _ Hs). lia.
Qed.

Lemma fragments_stay_in_step_witness :
  exists st',
    for_lines ∅ init_locals spec_example = inr st' /\
    length (with_lengths st') = length (with_offsets st') /\
    (length (with_lengths init_locals) <= length (with_lengths st')
     <= length (with_lengths init_locals) + length spec_example)%nat.
Proof.
  exists spec_example_locals.
  assert (Hloop : for_lines ∅ init_locals spec_example = inr spec_example_locals)
    by (vm_compute; reflexivity).
  split; [exact Hloop|].
  exact (fragments_stay_in_step ∅ init_locals spec_example_locals spec_example
           Hloop eq_refl).
Defined.

(** X6. When the loop ends normally, its final offset is the sum of the
    lengths of the accepted columns, which is also the last position of the
    last column, and the name set handed to reconciliation holds exactly the
    names of the rendered columns. *)
Theorem final_offset_is_record_width (char : gset string) (lines : list string)
    (st : locals) :
  for_lines char init_locals lines = inr st ->
  exists cols,
    scan 0 lines = inr cols /\
    with_lengths st = render_length char <$> cols /\
    with_offsets st = render_offset <$> cols /\
    offset st = total_length cols /\
    (forall c, last cols = Some c -> col_last c = offset st) /\
    (forall x, x ∈ all_columns st <-> exists c, c ∈ cols /\ col_name c = x).
Proof.
  rewrite for_lines_init.
  destruct (scan 0 lines) as [e|cols] eqn:Hs; [discriminate|].
  intros [= <-]. exists cols. simpl.
  repeat (split; [reflexivity|]). split.
  - intros c Hlast. rewrite last_lookup in Hlast.
    destruct (scan_positions _ _ _ _ _ Hs Hlast) as [_ Hl].
    pose proof (total_length_take_S _ _ _ Hlast) as Ht.
    assert (Hlen : (0 < length cols)%nat).
    { apply lookup_lt_Some in Hlast. lia. }
    rewrite (take_ge cols) in Ht by lia. lia.
  - intros x. rewrite elem_of_list_to_set, list_elem_of_fmap.
    split; intros (c & H1 & H2); exists c; auto.
Qed.

Lemma final_offset_is_record_width_witness :
  exists cols,
    scan 0 spec_example = inr cols /\
    with_lengths spec_example_locals = render_length ∅ <$> cols /\
    with_offsets spec_example_locals = render_offset <$> cols /\
    offset spec_example_locals = total_length cols /\
    (forall c, last cols = Some c -> col_last c = offset spec_example_locals) /\
    (forall x, x ∈ all_columns spec_example_locals
               <-> exists c, c ∈ cols /\ col_name c = x).
Proof.
  apply (final_offset_is_record_width ∅ spec_example spec_example_locals).
  vm_compute. reflexivity.
Defined.

(** X7. The sentinel is optional: on a descriptor in which no line is named
    EOR and every line has an integer second field, the loop runs to the end
    of the file and renders one entry per line in each list. *)
Theorem descriptor_without_sentinel (char : gset string) (lines : list string) :
  Forall (fun l => line_name l <> "EOR" /\ exists n len, parse_line l = inr (n, len))
         lines ->
  exists st,
    for_lines char init_locals lines = inr st /\
    length (with_lengths st) = length lines /\
    length (with_offsets st) = length lines.
Proof.
  intros Hall.
  assert (Hscan : forall o, exists cols,
            scan o lines = inr cols /\ length cols = length lines).
  { induction Hall as [|l ls [Hl (n & len & Hp)] _ IH]; intros o; simpl.
    - now exists [].
    - rewrite Hp. rewrite (parse_line_name _ _ _ Hp).
      apply String.eqb_neq in Hl. rewrite Hl.
      destruct (IH (o + len)) as (cols & -> & Hlen).
      eexists. split; [reflexivity|]. simpl. now rewrite Hlen. }
  destruct (Hscan 0) as (cols & Hs & Hlen).
  rewrite for_lines_init, Hs. eexists. split; [reflexivity|].
  simpl. now rewrite !length_fmap.
Qed.

Lemma descriptor_without_sentinel_witness :
  exists st,
    for_lines ∅ init_locals ["NAME,10"; "ADDR,20"] = inr st /\
    length (with_lengths st) = length ["NAME,10"; "ADDR,20"] /\
    length (with_offsets st) = length ["NAME,10"; "ADDR,20"].
Proof.
  apply (descriptor_without_sentinel ∅ ["NAME,10"; "ADDR,20"]).
  repeat constructor; try (vm_compute; discriminate).
  - exists "NAME", 10. reflexivity.
  - exists "ADDR", 20. reflexivity.
Defined.

(** ** Reconciliation at the edges *)

Lemma symmetric_difference_empty_r (db : gset string) :
  symmetric_difference db ∅ = db.
Proof.
  unfold symmetric_difference. apply set_eq. intros x.
  rewrite elem_of_union, !elem_of_difference, elem_of_empty. tauto.
Qed.

(** X8. An empty descriptor, or one whose first line is the sentinel,
    yields no column: when the schema has no column either,
    [collect_columns] returns two empty fragments; otherwise every schema
    column is reported as a discrepancy and the run exits. *)
Theorem empty_descriptor (w : world) (path : string) (char db : gset string)
    (lines : list string) (tr : list event) :
  read_lines w path = Some lines ->
  (lines = [] \/
   exists eor rest len, lines = eor :: rest /\ parse_line eor = inr ("EOR", len)) ->
  collect_columns w path char db tr =
    if decide (db = ∅)
    then (Return {| columns_with_lengths := ""; columns_with_offsets := "" |},
          (tr ++ [OpenFile path])%list)
    else (SystemExit None, (tr ++ [OpenFile path; PrintDiscrepancies db])%list).
Proof.
  intros Hread Hlines.
  assert (Hloop : for_lines char init_locals lines = inr init_locals).
  { destruct Hlines as [->|(eor & rest & len & -> & Hp)]; [reflexivity|].
    simpl. unfold loop_body. now rewrite Hp. }
  rewrite collect_columns_cases, Hread, Hloop. simpl.
  rewrite symmetric_difference_empty_r.
  destruct (decide (db = ∅)); reflexivity.
Qed.

Lemma empty_descriptor_witness :
  collect_columns (sample_world (Some ["EOR,0"; "NAME,10"]) ∅ name_addr)
                  "member.fmt" ∅ name_addr [] =
    (SystemExit None, [OpenFile "member.fmt"; PrintDiscrepancies name_addr]).
Proof.
  rewrite (empty_descriptor (sample_world (Some ["EOR,0"; "NAME,10"]) ∅ name_addr)
             "member.fmt" ∅ name_addr ["EOR,0"; "NAME,10"] [] eq_refl).
  - vm_compute. reflexivity.
  - right. exists "EOR,0", ["NAME,10"], 0. split; reflexivity.
Defined.

(** X9. A discrepancy report is printed only after the whole descriptor
    was read without error; the run then exits, and the set printed is not
    empty and holds exactly the names that are in the schema but not in the
    descriptor or in the descriptor but not in the schema. *)
Theorem reported_names_are_the_difference (w : world) (path : string)
    (char db d : gset string) :
  PrintDiscrepancies d ∈ (collect_columns w path char db []).2 ->
  exists lines st,
    read_lines w path = Some lines /\
    for_lines char init_locals lines = inr st /\
    (collect_columns w path char db []).1 = SystemExit None /\
    d <> ∅ /\
    forall x, x ∈ d <-> (x ∈ db /\ x ∉ all_columns st) \/ (x ∈ all_columns st /\ x ∉ db).
Proof.
  rewrite collect_columns_cases.
  destruct (read_lines w path) as [lines|]; [|simpl; absent].
  destruct (for_lines char init_locals lines) as [e|st] eqn:Hloop; [simpl; absent|].
  destruct (decide _) as [Hd|Hd]; [simpl; absent|].
  simpl. intros Hin.
  apply elem_of_cons in Hin as [Hin|Hin]; [discriminate Hin|].
  apply elem_of_cons in Hin as [Hin|Hin]; [|now apply elem_of_nil in Hin].
  injection Hin as ->.
  exists lines, st. split; [reflexivity|]. split; [exact Hloop|].
  split; [reflexivity|]. split; [exact Hd|].
  intros x. unfold symmetric_difference.
  rewrite elem_of_union, !elem_of_difference. reflexivity.
Qed.

Lemma reported_names_are_the_difference_witness :
  exists lines st,
    read_lines (sample_world (Some spec_example) ∅ name_addr_phone) "member.fmt"
      = Some lines /\
    for_lines ∅ init_locals lines = inr st /\
    (collect_columns (sample_world (Some spec_example) ∅ name_addr_phone)
                     "member.fmt" ∅ name_addr_phone []).1 = SystemExit None /\
    ({["PHONE"]} : gset string) <> ∅ /\
    forall x, x ∈ ({["PHONE"]} : gset string) <->
              (x ∈ name_addr_phone /\ x ∉ all_columns st)
              \/ (x ∈ all_columns st /\ x ∉ name_addr_phone).
Proof.
  apply (reported_names_are_the_difference
           (sample_world (Some spec_example) ∅ name_addr_phone)
           "member.fmt" ∅ name_addr_phone {["PHONE"]}).
  vm_compute. apply elem_of_cons. right. apply elem_of_cons. now left.
Defined.

(** ** Configuration *)

(** X10. [expand_args] returns exactly when the configuration file exists,
    has a [database] section and [cfg.get] returns a value for each of the
    four items; the arguments it returns carry the command line unchanged,
    those four values and the table name built from the acronym, and nothing
    is logged. *)
Theorem expanded_arguments_carry_the_configuration (w : world) (argv : cli)
    (tr tr' : list event) (a : args) :
  expand_args w argv tr = (Return a, tr') <->
  isfile w (dbconfig_path argv) = true /\
  (exists section,
     config_file w (dbconfig_path argv) = inr (Some section) /\
     section !! "username" = Some (inr (username a)) /\
     section !! "password" = Some (inr (password a)) /\
     section !! "dbname" = Some (inr (dbname a)) /\
     section !! "directory_name" = Some (inr (directory_name a))) /\
  given a = argv /\
  table_name a = "NEW_MEMBER_" ++ affiliate_acronym argv ++ "_EXT" /\
  tr' = tr.
Proof.
  rewrite expand_args_cases. cbv zeta. split.
  - destruct (isfile w (dbconfig_path argv)); [|discriminate].
    destruct (config_file w (dbconfig_path argv)) as [e|[section|]]; try discriminate.
    destruct (section !! "username") as [[e|u]|] eqn:Hu; try discriminate.
    destruct (section !! "password") as [[e|p]|] eqn:Hp; try discriminate.
    destruct (section !! "dbname") as [[e|d]|] eqn:Hd; try discriminate.
    destruct (section !! "directory_name") as [[e|dir]|] eqn:Hdir; try discriminate.
    intros [= <- <-]. split; [reflexivity|]. split; [|now repeat split].
    exists section. now repeat split.
  - intros (-> & (section & -> & Hu & Hp & Hd & Hdir) & Hg & Ht & ->).
    rewrite Hu, Hp, Hd, Hdir. destruct a; simpl in *. now subst.
Qed.

(** X11. When the loop over username, password, dbname, directory_name
    comes to an item the [database] section lacks, every item before it
    having been got without error, the run logs Missing parameter with that
    item and exits, without looking at the items after it; when it comes
    first to an item whose [cfg.get] raises, that exception leaves
    [expand_args] and nothing is logged. *)
Theorem first_missing_parameter_is_reported (w : world) (argv : cli)
    (tr : list event) (section : gmap string (exn + string)) :
  isfile w (dbconfig_path argv) = true ->
  config_file w (dbconfig_path argv) = inr (Some section) ->
  match get_items section config_items with
  | Missing item =>
      expand_args w argv tr =
        (SystemExit None,
         (tr ++ [LogError (Text ("Missing parameter " ++ item ++ " "))])%list)
  | GetRaises e => expand_args w argv tr = (Raise e, tr)
  | AllPresent => exists a, expand_args w argv tr = (Return a, tr)
  end.
Proof.
  intros Hfile Hcfg.
  rewrite expand_args_cases, Hfile, Hcfg, get_items_cases. cbv zeta.
  destruct (section !! "username") as [[e|u]|]; try reflexivity.
  destruct (section !! "password") as [[e|p]|]; try reflexivity.
  destruct (section !! "dbname") as [[e|d]|]; try reflexivity.
  destruct (section !! "directory_name") as [[e|dir]|]; try reflexivity.
  eexists. reflexivity.
Qed.

Lemma first_missing_parameter_is_reported_witness :
  expand_args partial_config_world (sample_cli "abc" false) [] =
    (SystemExit None, [LogError (Text "Missing parameter password ")]) /\
  expand_args interpolation_error_world (sample_cli "abc" false) [] =
    (Raise (ConfigError "password"), []).
Proof.
  split.
  - exact (first_missing_parameter_is_reported
             partial_config_world (sample_cli "abc" false) []
             (<["username" := inr "cope"]>
                (<["directory_name" := inr "EXT_DIR"]> ∅))
             eq_refl eq_refl).
  - exact (first_missing_parameter_is_reported
             interpolation_error_world (sample_cli "abc" false) []
             (<["username" := inr "cope"]>
                (<["password" := inl (ConfigError "password")]>
                   (<["directory_name" := inr "EXT_DIR"]> ∅)))
             eq_refl eq_refl).
Defined.

(** ** The order of effects in a run *)

(** X12. When the arguments cannot be expanded (no configuration file, no
    [database] section, an item missing, or configparser raising), the run
    ends without connecting to the database, issuing a query, opening the
    descriptor or calling the stored procedure. *)
Theorem configuration_failure_touches_nothing (w : world) (argv : cli) :
  (forall a tr, expand_args w argv [] <> (Return a, tr)) ->
  (run w argv).1 <> Return tt /\
  Forall (fun ev => touches_collaborators ev = false) (run w argv).2.
Proof.
  intros Hfail.
  destruct (run_outcome w argv) as [(m & Hr)|[(e & Hr & _)|(a & He & _)]].
  - rewrite Hr. simpl. split; [discriminate|]. repeat constructor.
  - rewrite Hr. simpl. split; [discriminate|]. constructor.
  - exfalso. exact (Hfail _ _ He).
Qed.

Lemma configuration_failure_touches_nothing_witness :
  (run no_config_world (sample_cli "abc" false)).1 <> Return tt /\
  Forall (fun ev => touches_collaborators ev = false)
         (run no_config_world (sample_cli "abc" false)).2.
Proof.
  apply (configuration_failure_touches_nothing no_config_world (sample_cli "abc" false)).
  intros a tr. rewrite expand_args_cases. simpl. discriminate.
Defined.

(** X13. With --show-only the stored procedure is never called, and
    without it the DDL is never printed, however the run ends. *)
Theorem show_only_selects_one_output (w : world) (argv : cli) :
  if show_only argv then never_applies (run w argv).2
  else never_prints_ddl (run w argv).2.
Proof.
  destruct (run_outcome w argv) as [(m & Hr)|[(e & Hr & _)|(a & _ & _ & _ & Hr)]];
    rewrite Hr; cbv zeta.
  - destruct (show_only argv); simpl; [intros ? ?|intros ?]; absent.
  - destruct (show_only argv); simpl; [intros ? ?|intros ?]; absent.
  - destruct (connect_ok w _ _ _);
      [|destruct (show_only argv); simpl; [intros ? ?|intros ?]; absent].
    rewrite gen_ddl_cases.
    destruct (char_semantics_columns w) as [char|];
      [|destruct (show_only argv); simpl; [intros ? ?|intros ?]; absent].
    destruct (all_db_columns w) as [db|];
      [|destruct (show_only argv); simpl; [intros ? ?|intros ?]; absent].
    cbv zeta.
    destruct (read_lines w _) as [lines|];
      [|destruct (show_only argv); simpl; [intros ? ?|intros ?]; absent].
    destruct (for_lines char init_locals lines) as [e|st];
      [destruct (show_only argv); simpl; [intros ? ?|intros ?]; absent|].
    destruct (decide _);
      [|destruct (show_only argv); simpl; [intros ? ?|intros ?]; absent].
    destruct (show_only argv); simpl; [intros ? ?|intros ?]; absent.
Qed.

(** X14. The stored procedure is called only at the end of a run in which
    everything before it went well: the arguments were expanded, the
    connection made, both queries answered, the descriptor read without
    error and its name set found equal to the schema's.  It is called once,
    as the last step, with the table name of the arguments and the DDL
    rendered from the loop's result. *)
Theorem ddl_is_applied_only_after_reconciliation (w : world) (argv : cli)
    (t d : string) :
  CallProc t d ∈ (run w argv).2 ->
  exists a char db lines st,
    expand_args w argv [] = (Return a, []) /\
    connect_ok w (username a) (password a) (dbname a) = true /\
    char_semantics_columns w = Some char /\
    all_db_columns w = Some db /\
    read_lines w (fmt_path argv) = Some lines /\
    for_lines char init_locals lines = inr st /\
    all_columns st = db /\
    show_only argv = false /\
    t = table_name a /\
    d = ddl_of a st /\
    (run w argv).2 =
      [Connect (username a) (password a) (dbname a);
       QueryCharSemantics; QueryAllColumns; OpenFile (fmt_path argv);
       CallProc t d].
Proof.
  destruct (run_outcome w argv) as [(m & Hr)|[(e & Hr & _)|(a & He & Hg & _ & Hr)]];
    rewrite Hr; cbv zeta; [simpl; absent..|].
  destruct (connect_ok w _ _ _) eqn:Hconn; [|simpl; absent].
  rewrite gen_ddl_cases, Hg.
  destruct (char_semantics_columns w) as [char|] eqn:Hchar; [|simpl; absent].
  destruct (all_db_columns w) as [db|] eqn:Hdb; [|simpl; absent].
  cbv zeta.
  destruct (read_lines w _) as [lines|] eqn:Hread; [|simpl; absent].
  destruct (for_lines char init_locals lines) as [e|st] eqn:Hloop; [simpl; absent|].
  destruct (decide _) as [Hd|Hd]; [|simpl; absent].
  destruct (show_only argv) eqn:Hshow; [simpl; absent|].
  simpl. intros Hin.
  do 4 (apply elem_of_cons in Hin as [Hin|Hin]; [discriminate Hin|]).
  apply elem_of_cons in Hin as [Hin|Hin]; [|now apply elem_of_nil in Hin].
  injection Hin as -> ->.
  exists a, char, db, lines, st.
  apply (proj1 (symmetric_difference_empty _ _)) in Hd.
  repeat (split; [first [reflexivity|assumption|now symmetry]|]).
  reflexivity.
Qed.

Lemma ddl_is_applied_only_after_reconciliation_witness :
  exists a char db lines st,
    expand_args (sample_world (Some spec_example) ∅ name_addr)
                (sample_cli "abc" false) [] = (Return a, []) /\
    connect_ok (sample_world (Some spec_example) ∅ name_addr)
               (username a) (password a) (dbname a) = true /\
    char_semantics_columns (sample_world (Some spec_example) ∅ name_addr) = Some char /\
    all_db_columns (sample_world (Some spec_example) ∅ name_addr) = Some db /\
    read_lines (sample_world (Some spec_example) ∅ name_addr)
               (fmt_path (sample_cli "abc" false)) = Some lines /\
    for_lines char init_locals lines = inr st /\
    all_columns st = db /\
    show_only (sample_cli "abc" false) = false /\
    "NEW_MEMBER_abc_EXT" = table_name a /\
    ddl_of (sample_args "abc" false) spec_example_locals = ddl_of a st /\
    (run (sample_world (Some spec_example) ∅ name_addr) (sample_cli "abc" false)).2 =
      [Connect (username a) (password a) (dbname a);
       QueryCharSemantics; QueryAllColumns; OpenFile (fmt_path (sample_cli "abc" false));
       CallProc "NEW_MEMBER_abc_EXT" (ddl_of (sample_args "abc" false) spec_example_locals)].
Proof.
  apply (ddl_is_applied_only_after_reconciliation
           (sample_world (Some spec_example) ∅ name_addr) (sample_cli "abc" false)
           "NEW_MEMBER_abc_EXT" (ddl_of (sample_args "abc" false) spec_example_locals)).
  assert (Hrun : (run (sample_world (Some spec_example) ∅ name_addr)
                      (sample_cli "abc" false)).2 =
                 [Connect "cope" "secret" "orcl"; QueryCharSemantics; QueryAllColumns;
                  OpenFile "member.fmt";
                  CallProc "NEW_MEMBER_abc_EXT"
                    (ddl_of (sample_args "abc" false) spec_example_locals)])
    by (vm_compute; reflexivity).
  rewrite Hrun. do 4 (apply elem_of_cons; right). apply elem_of_cons. now left.
Defined.

(** X15. An exception that ends the run uncaught comes from a
    collaborator, and the script has said nothing by then: the trace holds
    only the calls made to the collaborators, no logged error, no
    discrepancy report and no printed DDL. *)
Theorem uncaught_exceptions_are_not_logged (w : world) (argv : cli) (e : exn) :
  (run w argv).1 = Raise e ->
  Forall (fun ev => touches_collaborators ev = true) (run w argv).2 /\
  (read_config w (dbconfig_path argv) = inl e \/ exists what, e = DatabaseError what).
Proof.
  destruct (run_outcome w argv) as [(m & Hr)|[(e' & Hr & Hc)|(a & _ & _ & _ & Hr)]];
    rewrite Hr; cbv zeta.
  - discriminate.
  - simpl. intros [= <-]. split; [constructor|now left].
  - destruct (connect_ok w _ _ _);
      [|simpl; intros [= <-]; split; [repeat constructor|eauto]].
    rewrite gen_ddl_cases.
    destruct (char_semantics_columns w) as [char|];
      [|simpl; intros [= <-]; split; [repeat constructor|eauto]].
    destruct (all_db_columns w) as [db|];
      [|simpl; intros [= <-]; split; [repeat constructor|eauto]].
    cbv zeta.
    destruct (read_lines w _) as [lines|]; [|discriminate].
    destruct (for_lines char init_locals lines) as [e'|st]; [discriminate|].
    destruct (decide _); [|discriminate].
    destruct (show_only argv); [discriminate|].
    destruct (callproc_ok w _ _); [discriminate|].
    simpl. intros [= <-]. split; [repeat constructor|eauto].
Qed.

Lemma uncaught_exceptions_are_not_logged_witness :
  (run failing_callproc_world (sample_cli "abc" false)).1
    = Raise (DatabaseError "callproc") /\
  Forall (fun ev => touches_collaborators ev = true)
         (run failing_callproc_world (sample_cli "abc" false)).2.
Proof.
  assert (Hr : (run failing_callproc_world (sample_cli "abc" false)).1
               = Raise (DatabaseError "callproc")) by (vm_compute; reflexivity).
  split; [exact Hr|].
  exact (proj1 (uncaught_exceptions_are_not_logged
                  failing_callproc_world (sample_cli "abc" false) _ Hr)).
Defined.

(** ** Names derived from the acronym *)


Lemma lower_char_idem c : PyStr.lower_char (PyStr.lower_char c) = PyStr.lower_char c.
Proof.
  destruct c as [[] [] [] [] [] [] [] []]; reflexivity.
Qed.






(** ** Names that can never reconcile *)

Lemma scan_names_upper lines : forall o cols,
  scan o lines = inr cols -> Forall (fun c => PyStr.upper (col_name c) = col_name c) cols.
Proof.
  induction lines as [|line rest IH]; intros o cols; simpl.
  - intros [= <-]. constructor.
  - destruct (parse_line line) as [e|[name len]] eqn:Hp; [discriminate|].
    destruct (String.eqb name "EOR").
    + intros [= <-]. constructor.
    + destruct (scan (o + len) rest) as [e|cols'] eqn:Hs; [discriminate|].
      intros [= <-]. constructor; [|eauto].
      simpl. exact (parse_line_upper _ _ _ Hp).
Qed.

(** X17. Every name the loop collects is in upper case and is not EOR.  So
    when the schema has a column whose name is not all upper case, or a
    column named EOR, no descriptor reconciles with it: [collect_columns]
    never returns fragments. *)
Theorem unreachable_schema_names (w : world) (path : string)
    (char db : gset string) (x : string) (tr : list event) :
  x ∈ db ->
  PyStr.upper x <> x \/ x = "EOR" ->
  (forall lines st, for_lines char init_locals lines = inr st -> x ∉ all_columns st) /\
  forall f, (collect_columns w path char db tr).1 <> Return f.
Proof.
  intros Hx Hbad.
  assert (Hnever : forall lines st,
            for_lines char init_locals lines = inr st -> x ∉ all_columns st).
  { intros lines st. rewrite for_lines_init.
    destruct (scan 0 lines) as [e|cols] eqn:Hs; [discriminate|].
    intros [= <-]. simpl.
    rewrite elem_of_list_to_set, list_elem_of_fmap. intros (c & -> & Hc).
    pose proof (scan_names_upper _ _ _ Hs) as Hup.
    pose proof (scan_names _ _ _ Hs) as Hne.
    rewrite Forall_forall in Hup, Hne.
    destruct Hbad as [Hcase|Heor]; [exact (Hcase (Hup c Hc))|exact (Hne c Hc Heor)]. }
  split; [exact Hnever|].
  intros f. rewrite collect_columns_cases.
  destruct (read_lines w path) as [lines|]; [|discriminate].
  destruct (for_lines char init_locals lines) as [e|st] eqn:Hloop; [discriminate|].
  destruct (decide _) as [Hd|Hd]; [|discriminate].
  exfalso. apply (proj1 (symmetric_difference_empty _ _)) in Hd.
  apply (Hnever lines st Hloop). now rewrite <- Hd.
Qed.

Lemma unreachable_schema_names_witness :
  "name" ∈ ({["name"]} : gset string) /\
  PyStr.upper "name" <> "name" /\
  forall f,
    (collect_columns (sample_world (Some ["name,10"; "EOR,0"]) ∅ {["name"]})
                     "member.fmt" ∅ {["name"]} []).1 <> Return f.
Proof.
  assert (Hin : "name" ∈ ({["name"]} : gset string)) by now apply elem_of_singleton.
  assert (Hcase : PyStr.upper "name" <> "name") by (vm_compute; discriminate).
  split; [exact Hin|]. split; [exact Hcase|].
  apply (unreachable_schema_names
           (sample_world (Some ["name,10"; "EOR,0"]) ∅ {["name"]})
           "member.fmt" ∅ {["name"]} "name" [] Hin (or_introl Hcase)).
Defined.

(** X18. Any line whose name is EOR in some mix of cases and whose second
    field is the text of an integer, followed by white space that [int]
    skips, ends the loop whatever that integer is: the locals are returned
    as they stood, and nothing after that line is looked at. *)
Theorem sentinel_length_is_ignored (char : gset string) (st : locals)
    (name trail : string) (n : Z) (rest : list string) :
  PyStr.is_ascii name = true ->
  comma_free name = true ->
  PyStr.all_space trail = true ->
  PyStr.upper name = "EOR" ->
  for_lines char st ((name ++ "," ++ PyStr.str n ++ trail) :: rest) = inr st.
Proof.
  intros _ Hn Ht Heor. cbn [for_lines]. unfold loop_body.
  rewrite (parse_written_line name trail n Hn Ht), Heor. reflexivity.
Qed.

Lemma sentinel_length_is_ignored_witness :
  for_lines ∅ spec_example_locals
    (("Eor" ++ "," ++ PyStr.str (-7) ++ PyStr.nl) :: ["not a line"])
  = inr spec_example_locals.
Proof.
  apply (sentinel_length_is_ignored ∅ spec_example_locals "Eor" PyStr.nl (-7)
           ["not a line"]); reflexivity.
Defined.
